(** * A key-value server over TCP: embedding of [server_tcp.c]

    The server accepts one connection at a time, reads one request of the
    form [COMMAND KEY [VALUE]], runs it against the files of its working
    directory and writes a short status reply.

    The embedding follows the C source function by function.  Bytes are
    [ascii] characters, buffers are lists of bytes, the store is a file
    system (paths lead to directory entries, entries are bound to inodes,
    inodes hold regular files, directories, devices and links), and every
    libc call that the source checks for failure can fail here too. *)

From Stdlib Require Import ZArith List Ascii String Lia Bool.
From stdpp Require Import gmap strings list fin_maps.

Local Open Scope Z_scope.

(** ** Bytes and C strings *)

Module CString.

Definition NUL : ascii := "000"%char.
Definition LF : ascii := "010"%char.

(** A string literal of the source, without its terminator. *)
Definition lit (s : string) : list ascii := list_ascii_of_string s.

Definition code (c : ascii) : Z := Z.of_N (N_of_ascii c).

(** The bytes of a [char] array seen as a C string: everything before
    the first NUL. *)
Fixpoint c_str (s : list ascii) : list ascii :=
  match s with
  | [] => []
  | c :: s' => if Ascii.eqb c NUL then [] else c :: c_str s'
  end.

Definition strlen (s : list ascii) : nat := length (c_str s).

(** [strcmp]: difference of the first two bytes that differ, both
    strings ending at their first NUL (or at the end of the list). *)
Fixpoint strcmp (a b : list ascii) {struct a} : Z :=
  match a with
  | [] => 0 - code (hd NUL b)
  | c :: a' =>
      let d := hd NUL b in
      if Ascii.eqb c d
      then (if Ascii.eqb c NUL then 0 else strcmp a' (tl b))
      else code c - code d
  end.

(** [isspace] in the "C" locale: space, \t, \n, \v, \f, \r. *)
Definition isspace (c : ascii) : bool :=
  let n := nat_of_ascii c in
  Nat.eqb n 32 || (Nat.leb 9 n && Nat.leb n 13).

End CString.
Import CString.

(** ** [sscanf], for the directives the server uses *)

Module Scanf.

Inductive directive : Type :=
| D_space                 (* white space in the format string *)
| D_s (width : nat)       (* %<width>s *)
| D_not_nl (width : nat). (* %<width>[^\n] *)

Definition EOF : Z := -1.

(** Consume white space (possibly none). *)
Fixpoint skip_space (inp : list ascii) : list ascii :=
  match inp with
  | [] => []
  | c :: inp' => if isspace c then skip_space inp' else inp
  end.

(** Consume at most [width] bytes satisfying [p]; returns the bytes
    consumed and the rest of the input. *)
Fixpoint scan_while (p : ascii -> bool) (width : nat) (inp : list ascii)
  : list ascii * list ascii :=
  match width, inp with
  | S w, c :: inp' =>
      if p c
      then let '(tok, rest) := scan_while p w inp' in (c :: tok, rest)
      else ([], inp)
  | _, _ => ([], inp)
  end.

Definition not_space (c : ascii) : bool := negb (isspace c).
Definition not_newline (c : ascii) : bool := negb (Ascii.eqb c LF).

(** The value [sscanf] returns when the input ends before a conversion:
    [EOF] if nothing was assigned yet, else the number of assignments. *)
Definition input_failure (assigned : list (list ascii)) : Z * list (list ascii) :=
  match assigned with
  | [] => (EOF, [])
  | _ => (Z.of_nat (length assigned), assigned)
  end.

Fixpoint scan_directives (fmt : list directive) (inp : list ascii)
         (assigned : list (list ascii)) : Z * list (list ascii) :=
  match fmt with
  | [] => (Z.of_nat (length assigned), assigned)
  | D_space :: fmt' => scan_directives fmt' (skip_space inp) assigned
  | D_s width :: fmt' =>
      match skip_space inp with
      | [] => input_failure assigned
      | c :: inp' =>
          let '(tok, rest) := scan_while not_space width (c :: inp') in
          scan_directives fmt' rest (assigned ++ [tok])
      end
  | D_not_nl width :: fmt' =>
      match inp with
      | [] => input_failure assigned
      | c :: inp' =>
          if not_newline c
          then let '(tok, rest) := scan_while not_newline width (c :: inp') in
               scan_directives fmt' rest (assigned ++ [tok])
          else (Z.of_nat (length assigned), assigned)
      end
  end.

(** [sscanf(buffer, fmt, ...)]: the return value and the strings
    assigned, in order. *)
Definition sscanf (buffer : list ascii) (fmt : list directive)
  : Z * list (list ascii) :=
  scan_directives fmt (c_str buffer) [].

End Scanf.
Import Scanf.

(** ** The file system and the socket *)

Module Posix.

(** Which of the file calls of one request fail for a reason outside
    the model (permissions, a full disk, a directory that is not empty). *)
Record io_faults : Type := mk_faults {
  open_fails : bool;
  write_fails : bool;
  read_fails : bool;
  remove_fails : bool
}.

Definition no_faults : io_faults := mk_faults false false false false.

(** *** Files

    A key is handed to [open] and [remove] as a path, so the store is a
    file system: paths lead to directory entries, entries are bound to
    inodes, inodes hold the files.  Several paths can lead to one entry
    ([foo] and [./foo]) and several entries to one inode (hard links). *)

(** What an inode holds.  A special file (a device) drops what is written
    to it and yields its own bytes when read; a symbolic link records where
    its target path leads. *)
Inductive node : Type :=
| Regular (content : list ascii)
| Directory
| Special (yield : list ascii)
| Symlink (target : option (list (list ascii) * list ascii)).

(** [route] is the name resolution of the kernel for the directories as
    they stand: for a path, the entries passed on the way (directories and
    links to directories) and the entry the last component names, or [None]
    when the path leads nowhere.  The server creates and removes entries;
    it never creates a directory or a link. *)
Record fs : Type := mk_fs {
  route : list ascii -> option (list (list ascii) * list ascii);
  entries : gmap (list ascii) N;
  inodes : gmap N node
}.

Definition MAXSYMLINKS : nat := 40.

(** The node an entry is bound to, if it is bound. *)
Definition node_at (w : fs) (e : list ascii) : option node :=
  match entries w !! e with
  | Some i => inodes w !! i
  | None => None
  end.

(** An entry on the way of a path must still be a directory or a link. *)
Definition passable (w : fs) (e : list ascii) : bool :=
  match node_at w e with
  | Some Directory => true
  | Some (Symlink _) => true
  | _ => false
  end.

(** Following the links at the last component, as [open] does. *)
Fixpoint follow (fuel : nat) (w : fs) (r : option (list (list ascii) * list ascii))
  : option (list ascii) :=
  match r with
  | None => None
  | Some (via, e) =>
      if forallb (passable w) via
      then match node_at w e with
           | Some (Symlink target) =>
               match fuel with
               | O => None
               | S fuel' => follow fuel' w target
               end
           | _ => Some e
           end
      else None
  end.

(** The entry [open(path, ...)] reaches, free or bound. *)
Definition open_entry (w : fs) (path : list ascii) : option (list ascii) :=
  follow MAXSYMLINKS w (route w path).

(** The entry [remove(path)] names: a link is not followed. *)
Definition unlink_entry (w : fs) (path : list ascii) : option (list ascii) :=
  match route w path with
  | Some (via, e) => if forallb (passable w) via then Some e else None
  | None => None
  end.

(** The number of a new inode. *)
Definition fresh_ino (w : fs) : N := fresh (dom (inodes w)).

(** The file calls a request makes, in order. *)
Inductive fs_call : Type :=
| FsOpenTrunc (path : list ascii)
| FsOpenRead (path : list ascii)
| FsWrite (path data : list ascii)
| FsRead (path : list ascii) (count : nat)
| FsClose (path : list ascii)
| FsRemove (path : list ascii).

(** [open(path, O_WRONLY | O_CREAT | O_TRUNC, 0644)]: the file system
    after the call and the inode behind the descriptor.  A free entry gets
    a new empty regular file, a regular file is emptied, a special file is
    opened as it is, a directory is refused. *)
Definition open_trunc (flt : io_faults) (w : fs) (path : list ascii)
  : option (fs * N) :=
  if open_fails flt then None
  else
    match open_entry w (c_str path) with
    | None => None
    | Some e =>
        match entries w !! e with
        | None =>
            Some (mk_fs (route w) (<[e := fresh_ino w]> (entries w))
                        (<[fresh_ino w := Regular []]> (inodes w)),
                  fresh_ino w)
        | Some i =>
            match inodes w !! i with
            | Some (Regular _) =>
                Some (mk_fs (route w) (entries w) (<[i := Regular []]> (inodes w)), i)
            | Some (Special _) => Some (w, i)
            | _ => None
            end
        end
    end.

(** [open(path, O_RDONLY)]: the inode behind the descriptor.  A directory
    can be opened. *)
Definition open_read (flt : io_faults) (w : fs) (path : list ascii) : option N :=
  if open_fails flt then None
  else
    match open_entry w (c_str path) with
    | None => None
    | Some e =>
        match entries w !! e with
        | None => None
        | Some i =>
            match inodes w !! i with
            | Some (Regular _) => Some i
            | Some (Special _) => Some i
            | Some Directory => Some i
            | _ => None
            end
        end
    end.

(** [write(fd, data, count)] on a descriptor just opened for writing, so
    at offset 0: the [count] bytes replace the first [count] bytes of a
    regular file and what the file holds after them stays; a device drops
    them; or the call fails and writes nothing. *)
Definition file_write (flt : io_faults) (w : fs) (fd : N) (data : list ascii)
           (count : nat) : option fs :=
  if write_fails flt then None
  else
    match inodes w !! fd with
    | Some (Regular content) =>
        Some (mk_fs (route w) (entries w)
                    (<[fd := Regular (firstn count data ++ skipn count content)]>
                       (inodes w)))
    | Some (Special _) => Some w
    | _ => None
    end.

(** [read(fd, buf, count)] on a descriptor just opened by [open_read]. *)
Definition file_read (flt : io_faults) (w : fs) (fd : N) (count : nat)
  : option (list ascii) :=
  if read_fails flt then None
  else
    match inodes w !! fd with
    | Some (Regular content) => Some (firstn count content)
    | Some (Special yield) => Some (firstn count yield)
    | _ => None
    end.

(** [remove(path)]: 0 and the entry is gone (the inode stays for the
    other entries bound to it), or -1 and nothing changed. *)
Definition remove (flt : io_faults) (w : fs) (path : list ascii) : Z * fs :=
  if remove_fails flt then (-1, w)
  else
    match unlink_entry w (c_str path) with
    | None => (-1, w)
    | Some e =>
        match entries w !! e with
        | Some _ => (0, mk_fs (route w) (delete e (entries w)) (inodes w))
        | None => (-1, w)
        end
    end.

(** What [read] on the client socket finds. *)
Inductive recv_event : Type :=
| RecvError
| RecvData (sent : list ascii).

(** [read(client_socket, buffer, count)]: the return value and the bytes
    placed in the buffer.  What the peer sent arrives in one piece, cut at
    [count] bytes; a peer that closed without sending is [RecvData []]. *)
Definition sock_read (ev : recv_event) (count : nat) : Z * list ascii :=
  match ev with
  | RecvError => (-1, [])
  | RecvData sent => (Z.of_nat (length (firstn count sent)), firstn count sent)
  end.

(** [write(client_socket, buf, count)]: the bytes put on the wire. *)
Definition sock_write (buf : list ascii) (count : nat) : list ascii :=
  firstn count buf.

(** [snprintf(dst, size, "OK\n%s\n", s)] followed by reading [dst] back
    as a C string. *)
Definition snprintf_ok (size : nat) (s : list ascii) : list ascii :=
  firstn (size - 1) (lit "OK" ++ [LF] ++ c_str s ++ [LF]).

End Posix.
Import Posix.

(** ** The server *)

Definition BUFFER_SIZE : nat := 1024.
Definition MAX_KEY_LEN : nat := 256.
Definition MAX_VALUE_LEN : nat := 768.
Definition MAX_COMMAND_LEN : nat := 16.
Definition EXIT_FAILURE : Z := 1.

Inductive command_type_t : Type := CMD_SET | CMD_GET | CMD_DEL | CMD_UNKNOWN.

Definition get_command_type (command : list ascii) : command_type_t :=
  if Z.eqb (strcmp command (lit "SET")) 0 then CMD_SET
  else if Z.eqb (strcmp command (lit "GET")) 0 then CMD_GET
  else if Z.eqb (strcmp command (lit "DEL")) 0 then CMD_DEL
  else CMD_UNKNOWN.

(** What one call leaves behind: the bytes written to the client, the
    store and the file calls made. *)
Record served : Type := mk_served {
  reply : list ascii;
  store_after : fs;
  calls : list fs_call
}.

Definition MSG_OK : list ascii := lit "OK" ++ [LF].
Definition MSG_ERROR : list ascii := lit "ERROR" ++ [LF].
Definition MSG_NOTFOUND : list ascii := lit "NOTFOUND" ++ [LF].
Definition MSG_ARGS : list ascii := lit "ERROR: Incorrect number of arguments" ++ [LF].

Definition parse_message (flt : io_faults) (st : fs)
           (command key value : list ascii) : served :=
  match get_command_type command with
  | CMD_SET =>
      match open_trunc flt st key with
      | None => mk_served (sock_write MSG_ERROR 6) st [FsOpenTrunc key]
      | Some (st1, fd) =>
          match file_write flt st1 fd value (strlen value) with
          | None =>
              mk_served (sock_write MSG_ERROR 6) st1
                        [FsOpenTrunc key; FsWrite key value; FsClose key]
          | Some st2 =>
              mk_served (sock_write MSG_OK 3) st2
                        [FsOpenTrunc key; FsWrite key value; FsClose key]
          end
      end
  | CMD_GET =>
      match open_read flt st key with
      | None => mk_served (sock_write MSG_NOTFOUND 9) st [FsOpenRead key]
      | Some fd =>
          match file_read flt st fd (MAX_VALUE_LEN - 1) with
          | None =>
              mk_served (sock_write MSG_ERROR 6) st
                        [FsOpenRead key; FsRead key (MAX_VALUE_LEN - 1); FsClose key]
          | Some file_content =>
              let response := snprintf_ok BUFFER_SIZE file_content in
              mk_served (sock_write response (strlen response)) st
                        [FsOpenRead key; FsRead key (MAX_VALUE_LEN - 1); FsClose key]
          end
      end
  | CMD_DEL =>
      let '(rc, st1) := remove flt st key in
      if Z.eqb rc 0
      then mk_served (sock_write MSG_OK 3) st1 [FsRemove key]
      else mk_served (sock_write MSG_OK 3) st1 [FsRemove key]
  | CMD_UNKNOWN => mk_served (sock_write MSG_ERROR 6) st []
  end.

Definition request_format : list directive :=
  [D_s 15; D_space; D_s 255; D_space; D_not_nl 767].

(** How [handle_client] ends: the process exits, or the call returns. *)
Inductive outcome : Type :=
| Exited (status : Z)
| Returned (r : served).

(** [perror], [printf] and [close] on the socket leave no trace here. *)
Definition handle_client (flt : io_faults) (st : fs)
           (ev : recv_event) : outcome :=
  let '(bytes_received, buffer) := sock_read ev (BUFFER_SIZE - 1) in
  if Z.leb bytes_received 0 then Exited EXIT_FAILURE
  else
    let '(parsed_args, args) := sscanf buffer request_format in
    let command := nth 0 args [] in
    let key := nth 1 args [] in
    let value := nth 2 args [] in
    if Z.leb 2 parsed_args
    then Returned (parse_message flt st command key
                                 (if Z.eqb parsed_args 3 then value else []))
    else Returned (mk_served (sock_write MSG_ARGS 36) st []).

(** ** The accept loop *)

(** What [accept] yields for one incoming connection, with what the
    handler will meet on it. *)
Inductive connection : Type :=
| AcceptError
| Accepted (flt : io_faults) (ev : recv_event).

(** The server after a run: the replies written, one per connection
    served, the store, and the exit status if the process has ended. *)
Record process : Type := mk_process {
  replies : list (list ascii);
  files : fs;
  exit_status : option Z
}.

(** The [while (1)] of [main]. *)
Fixpoint accept_loop (st : fs) (conns : list connection)
  : process :=
  match conns with
  | [] => mk_process [] st None
  | AcceptError :: conns' => accept_loop st conns'
  | Accepted flt ev :: conns' =>
      match handle_client flt st ev with
      | Exited status => mk_process [] st (Some status)
      | Returned r =>
          let p := accept_loop (store_after r) conns' in
          mk_process (reply r :: replies p) (files p) (exit_status p)
      end
  end.

(** [main], given what [set_tcp_server_socket] returned. *)
Definition main (server_socket : Z) (st : fs)
           (conns : list connection) : process :=
  if Z.ltb server_socket 0 then mk_process [] st (Some EXIT_FAILURE)
  else accept_loop st conns.

(** A client that sends one line and meets no failure. *)
Definition request (line : string) : connection :=
  Accepted no_faults (RecvData (lit line ++ [LF])).

(** ** Well-formed keys, values and request lines

    The predicates under which the claims are stated.  They are boolean so
    that they can be decided on concrete requests. *)

Definition not_nul (c : ascii) : bool := negb (Ascii.eqb c NUL).
Definition key_char (c : ascii) : bool := not_space c && not_nul c.
Definition value_char (c : ascii) : bool := not_newline c && not_nul c.

(** [stops p inp]: a scan of [p]-bytes ends right at the start of [inp]. *)
Definition stops (p : ascii -> bool) (inp : list ascii) : bool :=
  match inp with
  | [] => true
  | c :: _ => negb (p c)
  end.

(** The separator a client puts between tokens. *)
Definition sp : ascii := " "%char.

(** A key as the parser can hand it to the store: 1 to 255 bytes, no white
    space, no NUL. *)
Definition valid_key (K : list ascii) : bool :=
  forallb key_char K && negb (Nat.eqb (length K) 0) && Nat.leb (length K) (MAX_KEY_LEN - 1).

(** A value: at most 767 bytes, no newline, no NUL. *)
Definition bounded_value (V : list ascii) : bool :=
  forallb value_char V && Nat.leb (length V) (MAX_VALUE_LEN - 1).

(** A value as the parser can capture it: moreover it does not start with
    white space. *)
Definition valid_value (V : list ascii) : bool :=
  bounded_value V && stops isspace V.

(** The optional newline that ends a request line. *)
Definition eol (nl : bool) : list ascii := if nl then [LF] else [].

Definition SET_line (K V : list ascii) (nl : bool) : list ascii :=
  lit "SET" ++ [sp] ++ K ++ [sp] ++ V ++ eol nl.
Definition GET_line (K : list ascii) (nl : bool) : list ascii :=
  lit "GET" ++ [sp] ++ K ++ eol nl.
Definition DEL_line (K : list ascii) (nl : bool) : list ascii :=
  lit "DEL" ++ [sp] ++ K ++ eol nl.

(** The request fits the single [read] of [handle_client]. *)
Definition fits_buffer (line : list ascii) : bool :=
  Nat.leb (length line) (BUFFER_SIZE - 1).

Definition get_works (flt : io_faults) : bool :=
  negb (open_fails flt) && negb (read_fails flt).

Definition V767 : list ascii := repeat "v"%char 767.

(** A token captured by [%<w>s] from a C string. *)
Definition token (w : nat) (t : list ascii) : Prop :=
  t <> [] /\ forallb key_char t = true /\ (length t <= w)%nat.

(** A value captured by [%767[^\n]] after the white space before it. *)
Definition captured (v : list ascii) : Prop :=
  v <> [] /\ forallb value_char v = true /\ (length v <= 767)%nat
  /\ stops isspace v = true.

Inductive parsed : Z -> list (list ascii) -> Prop :=
| parsed_nothing : parsed EOF []
| parsed_command c : token 15 c -> parsed 1 [c]
| parsed_key c k : token 15 c -> token 255 k -> parsed 2 [c; k]
| parsed_value c k v :
    token 15 c -> token 255 k -> captured v -> parsed 3 [c; k; v].

(** The bytes that the malformed-request branch puts on the wire: the
    first 36 bytes of the 37-byte literal. *)
Definition MSG_MALFORMED : list ascii := sock_write MSG_ARGS 36.

(** ** Starting up and accepting *)

Definition TCP_PORT : Z := 5000.
Definition MAX_BACKLOG : Z := 10.
Definition SOCKET_ERROR : Z := -1.
Definition BIND_ERROR : Z := -2.
Definition LISTEN_ERROR : Z := -3.
Definition IP_SERVER_ERROR : Z := -4.
Definition ACCEPT_ERROR : Z := -5.

(** What the four calls of the start-up return. *)
Record startup : Type := mk_startup {
  socket_rc : Z;
  inet_pton_rc : Z;
  bind_rc : Z;
  listen_rc : Z
}.

(** The socket calls made, in order. *)
Inductive net_call : Type :=
| NetSocket
| NetInetPton
| NetBind (fd port : Z)
| NetListen (fd backlog : Z)
| NetClose (fd : Z).

Definition set_tcp_server_socket (env : startup) : Z * list net_call :=
  let server_socket := socket_rc env in
  if Z.ltb server_socket 0 then (SOCKET_ERROR, [NetSocket])
  else if Z.leb (inet_pton_rc env) 0
  then (IP_SERVER_ERROR, [NetSocket; NetInetPton])
  else if Z.eqb (bind_rc env) (-1)
  then (BIND_ERROR, [NetSocket; NetInetPton; NetBind server_socket TCP_PORT])
  else if Z.eqb (listen_rc env) (-1)
  then (LISTEN_ERROR,
        [NetSocket; NetInetPton; NetBind server_socket TCP_PORT;
         NetListen server_socket MAX_BACKLOG; NetClose server_socket])
  else (server_socket,
        [NetSocket; NetInetPton; NetBind server_socket TCP_PORT;
         NetListen server_socket MAX_BACKLOG]).

(** [accept_client_socket], given what [accept] returned. *)
Definition accept_client_socket (accept_rc : Z) : Z :=
  if Z.eqb accept_rc (-1) then ACCEPT_ERROR else accept_rc.

(** One turn of the loop of [main]: what [accept] returns and what the
    handler will meet on the connection. *)
Record arrival : Type := mk_arrival {
  accept_rc : Z;
  arrival_faults : io_faults;
  arrival_recv : recv_event
}.

(** The [while (1)] of [main], with the call of [accept_client_socket]
    and the test on its result. *)
Fixpoint serve_loop (st : fs) (arrivals : list arrival)
  : process :=
  match arrivals with
  | [] => mk_process [] st None
  | a :: arrivals' =>
      let client_socket := accept_client_socket (accept_rc a) in
      if Z.ltb client_socket 0 then serve_loop st arrivals'
      else
        match handle_client (arrival_faults a) st (arrival_recv a) with
        | Exited status => mk_process [] st (Some status)
        | Returned r =>
            let p := serve_loop (store_after r) arrivals' in
            mk_process (reply r :: replies p) (files p) (exit_status p)
        end
  end.

(** [main], from the start-up on. *)
Definition run_main (env : startup) (st : fs)
           (arrivals : list arrival) : process :=
  let server_socket := fst (set_tcp_server_socket env) in
  if Z.ltb server_socket 0 then mk_process [] st (Some EXIT_FAILURE)
  else serve_loop st arrivals.

(** How the loop of [main] sees an arrival. *)
Definition connection_of (a : arrival) : connection :=
  if Z.ltb (accept_rc a) 0 then AcceptError
  else Accepted (arrival_faults a) (arrival_recv a).

(** The four calls of the start-up all succeed. *)
Definition startup_ok (env : startup) : bool :=
  Z.leb 0 (socket_rc env) && Z.ltb 0 (inet_pton_rc env)
  && negb (Z.eqb (bind_rc env) (-1)) && negb (Z.eqb (listen_rc env) (-1)).

(** [accept] returned a descriptor. *)
Definition accept_ok (a : arrival) : bool := Z.leb 0 (accept_rc a).

(** ** Predicates on stores and runs *)

(** Every record is a value the protocol can return whole: at most 767
    bytes, no newline, no NUL. *)
Definition store_bounded (st : fs) : Prop :=
  forall i content,
    inodes st !! i = Some (Regular content) -> bounded_value content = true.

(** The read on this connection returns at least one byte. *)
Definition delivers (c : connection) : bool :=
  match c with
  | AcceptError => true
  | Accepted _ ev => Z.ltb 0 (fst (sock_read ev (BUFFER_SIZE - 1)))
  end.

Definition is_accepted (c : connection) : bool :=
  match c with
  | AcceptError => false
  | Accepted _ _ => true
  end.

(** The buffer [handle_client] parses, and what it parses from it. *)
Definition buffer_of (ev : recv_event) : list ascii := snd (sock_read ev (BUFFER_SIZE - 1)).
Definition command_of (ev : recv_event) : list ascii :=
  nth 0 (snd (sscanf (buffer_of ev) request_format)) [].
Definition key_of (ev : recv_event) : list ascii :=
  nth 1 (snd (sscanf (buffer_of ev) request_format)) [].

(** ** Records in the file system *)

(** The node that [open(K, O_RDONLY)] reaches. *)
Definition reached (w : fs) (K : list ascii) : option node :=
  match open_entry w K with
  | Some e => node_at w e
  | None => None
  end.

(** The record of K: the content of the regular file K leads to. *)
Definition record (w : fs) (K : list ascii) : option (list ascii) :=
  match reached w K with
  | Some (Regular content) => Some content
  | _ => None
  end.

(** K names a place for a record: it leads to an entry that is free or
    bound to a regular file.  This leaves out directories, devices and
    paths that lead nowhere. *)
Definition record_entry (w : fs) (K : list ascii) : option (list ascii) :=
  match open_entry w K with
  | Some e =>
      match entries w !! e with
      | None => Some e
      | Some i =>
          match inodes w !! i with
          | Some (Regular _) => Some e
          | _ => None
          end
      end
  | None => None
  end.


(** The file system once the regular file at entry [e] holds [V], the file
    being created when the entry was free. *)
Definition put_record (w : fs) (e V : list ascii) : fs :=
  match entries w !! e with
  | None =>
      mk_fs (route w) (<[e := fresh_ino w]> (entries w))
            (<[fresh_ino w := Regular V]> (inodes w))
  | Some i => mk_fs (route w) (entries w) (<[i := Regular V]> (inodes w))
  end.


(** The file system once the entry that K names is removed. *)
Definition unlinked (w : fs) (K : list ascii) : fs :=
  match unlink_entry w K with
  | Some e => mk_fs (route w) (delete e (entries w)) (inodes w)
  | None => w
  end.

(** *** A file system to try things in

    The server runs with the root directory as its working directory, as
    in a chroot.  The root holds regular files and the directory [dev] with
    the device [null]; there are no links.  An entry is named by the
    components that lead to it from the root, joined by slashes, and the
    root itself by [.]. *)

Definition slash : ascii := "/"%char.
Definition dot : ascii := "."%char.

(** The components of a path: the runs of bytes between its slashes. *)
Fixpoint components (p cur : list ascii) : list (list ascii) :=
  match p with
  | [] => [cur]
  | c :: p' =>
      if Ascii.eqb c slash then cur :: components p' []
      else components p' (cur ++ [c])
  end.

Fixpoint entry_name (dir : list (list ascii)) : list ascii :=
  match dir with
  | [] => [dot]
  | c :: dir' =>
      match dir' with
      | [] => c
      | _ => c ++ [slash] ++ entry_name dir'
      end
  end.

(** Walking the components from the directory [dir]: empty components and
    [.] stay, [..] goes up (the root is its own parent), a name that is not
    the last component must be a directory and is entered. *)
Fixpoint walk (cs dir via : list (list ascii)) : list (list ascii) * list ascii :=
  match cs with
  | [] => (via, entry_name dir)
  | c :: cs' =>
      if bool_decide (c = []) || bool_decide (c = [dot]) then walk cs' dir via
      else if bool_decide (c = [dot; dot]) then walk cs' (removelast dir) via
      else match cs' with
           | [] => (via, entry_name (dir ++ [c]))
           | _ => walk cs' (dir ++ [c]) (via ++ [entry_name (dir ++ [c])])
           end
  end.

(** The empty path leads nowhere. *)
Definition cwd_route (p : list ascii) : option (list (list ascii) * list ascii) :=
  match p with
  | [] => None
  | _ => Some (walk (components p []) [] [])
  end.

Definition bare_dir : fs :=
  mk_fs cwd_route
        {[ [dot] := 0%N; lit "dev" := 1%N; lit "dev/null" := 2%N ]}
        {[ 0%N := Directory; 1%N := Directory; 2%N := Special [] ]}.

Fixpoint add_files (files : list (list ascii * list ascii)) (i : N) (w : fs) : fs :=
  match files with
  | [] => w
  | (name, content) :: files' =>
      add_files files' (N.succ i)
                (mk_fs (route w) (<[name := i]> (entries w))
                       (<[i := Regular content]> (inodes w)))
  end.

(** The root directory holding these regular files. *)
Definition cwd_fs (files : list (list ascii * list ascii)) : fs :=
  add_files files 3%N bare_dir.


(** ** Trying the model *)

Example scan_set_foo :
  sscanf (lit "SET foo hello world" ++ [LF]) request_format
  = (3, [lit "SET"; lit "foo"; lit "hello world"]).
Proof. reflexivity. Qed.

Example scan_one_token : sscanf (lit "SET" ++ [LF]) request_format = (1, [lit "SET"]).
Proof. reflexivity. Qed.

Example scan_blank : sscanf [sp; LF] request_format = (EOF, []).
Proof. reflexivity. Qed.

Example malformed_bytes : MSG_MALFORMED = lit "ERROR: Incorrect number of arguments".
Proof. reflexivity. Qed.

Example scenario_foo :
  replies (main 3 (cwd_fs []) [request "SET foo hello world"; request "GET foo";
                               request "DEL foo"; request "GET foo"])
  = [MSG_OK; MSG_OK ++ lit "hello world" ++ [LF]; MSG_OK; MSG_NOTFOUND].
Proof. reflexivity. Qed.

(** Two paths to one file are one record. *)
Example scenario_alias :
  replies (main 3 (cwd_fs []) [request "SET foo 1"; request "SET ./foo 2";
                               request "GET foo"; request "DEL ./foo";
                               request "GET foo"])
  = [MSG_OK; MSG_OK; MSG_OK ++ lit "2" ++ [LF]; MSG_OK; MSG_NOTFOUND].
Proof. reflexivity. Qed.

(** A device takes the value and keeps nothing; a directory can be opened
    but not read, and not written. *)
Example scenario_dev_null :
  replies (main 3 (cwd_fs []) [request "SET /dev/null x"; request "GET /dev/null"])
  = [MSG_OK; MSG_OK ++ [LF]].
Proof. reflexivity. Qed.

Example scenario_directory :
  replies (main 3 (cwd_fs []) [request "GET ."; request "SET . x"])
  = [MSG_ERROR; MSG_ERROR].
Proof. reflexivity. Qed.

(** Paths are resolved by their components. *)
Example routes :
  map cwd_route [lit "foo"; lit "./foo"; lit ".//foo"; lit "/foo"; lit "dev/../foo";
                 lit "foo/"; lit "."; lit "/dev/null"; lit ""]
  = [Some ([], lit "foo"); Some ([], lit "foo"); Some ([], lit "foo");
     Some ([], lit "foo"); Some ([lit "dev"], lit "foo");
     Some ([lit "foo"], lit "foo"); Some ([], [dot]);
     Some ([lit "dev"], lit "dev/null"); None].
Proof. reflexivity. Qed.

(** A path through a regular file leads nowhere. *)
Example scenario_not_a_directory :
  replies (main 3 (cwd_fs []) [request "SET foo 1"; request "SET foo/bar 2";
                               request "GET foo/"; request "GET foo/../foo";
                               request "GET dev/../foo"])
  = [MSG_OK; MSG_ERROR; MSG_NOTFOUND; MSG_NOTFOUND; MSG_OK ++ lit "1" ++ [LF]].
Proof. reflexivity. Qed.
(** ** Facts about C strings *)

Section CStringFacts.

Lemma code_inj c d : code c = code d -> c = d.
Proof.
  unfold code. intros H. apply N2Z.inj in H.
  rewrite <- (ascii_N_embedding c), <- (ascii_N_embedding d). now f_equal.
Qed.

Lemma c_str_no_nul s : forallb not_nul s = true -> c_str s = s.
Proof.
  induction s as [|c s IH]; simpl; [reflexivity|].
  intros H. apply andb_prop in H as [Hc Hs].
  unfold not_nul in Hc. apply negb_true_iff in Hc. rewrite Hc.
  now rewrite IH.
Qed.

Lemma c_str_has_no_nul s : forallb not_nul (c_str s) = true.
Proof.
  induction s as [|c s IH]; simpl; [reflexivity|].
  destruct (Ascii.eqb c NUL) eqn:E; simpl; [reflexivity|].
  unfold not_nul at 1. now rewrite E, IH.
Qed.

(** [strcmp] returns 0 exactly on equal C strings. *)
Lemma strcmp_zero a : forall b, strcmp a b = 0 -> c_str a = c_str b.
Proof.
  induction a as [|c a IH]; intros b; simpl.
  - destruct b as [|d b]; simpl; [reflexivity|].
    intros H. destruct (Ascii.eqb d NUL) eqn:E; [reflexivity|].
    apply Ascii.eqb_neq in E. exfalso. apply E, code_inj.
    change (code NUL) with 0. lia.
  - destruct (Ascii.eqb c (hd NUL b)) eqn:E.
    + apply Ascii.eqb_eq in E.
      destruct (Ascii.eqb c NUL) eqn:E0.
      * intros _. apply Ascii.eqb_eq in E0.
        destruct b as [|d b]; simpl in *; [reflexivity|].
        subst. now rewrite Ascii.eqb_refl.
      * intros H. destruct b as [|d b]; simpl in *.
        { subst. now rewrite Ascii.eqb_refl in E0. }
        subst d. rewrite E0. f_equal. now apply IH.
    + intros H. apply Ascii.eqb_neq in E. exfalso. apply E, code_inj. lia.
Qed.

Lemma strcmp_refl a : strcmp a a = 0.
Proof.
  induction a as [|c a IH]; simpl; [reflexivity|].
  rewrite Ascii.eqb_refl. now destruct (Ascii.eqb c NUL).
Qed.

Lemma isspace_not_nul c : isspace c = true -> not_nul c = true.
Proof.
  intros H. unfold not_nul. apply negb_true_iff, Ascii.eqb_neq.
  intros ->. discriminate H.
Qed.

Lemma key_char_not_nul c : key_char c = true -> not_nul c = true.
Proof. unfold key_char. intros H. now apply andb_prop in H. Qed.

Lemma value_char_not_nul c : value_char c = true -> not_nul c = true.
Proof. unfold value_char. intros H. now apply andb_prop in H. Qed.

Lemma forallb_impl (p q : ascii -> bool) s :
  (forall c, p c = true -> q c = true) -> forallb p s = true -> forallb q s = true.
Proof.
  intros Hpq. induction s as [|c s IH]; simpl; [reflexivity|].
  intros H. apply andb_prop in H as [Hc Hs]. now rewrite (Hpq _ Hc), IH.
Qed.

End CStringFacts.

(** ** Facts about the scanner *)

Section ScanFacts.

Lemma skip_space_all ws inp :
  forallb isspace ws = true -> skip_space (ws ++ inp) = skip_space inp.
Proof.
  induction ws as [|c ws IH]; simpl; [reflexivity|].
  intros H. apply andb_prop in H as [Hc Hs]. now rewrite Hc, IH.
Qed.

Lemma skip_space_stops inp : stops isspace inp = true -> skip_space inp = inp.
Proof.
  destruct inp as [|c inp]; simpl; [reflexivity|].
  intros H. apply negb_true_iff in H. now rewrite H.
Qed.

Lemma skip_space_result inp : stops isspace (skip_space inp) = true.
Proof.
  induction inp as [|c inp IH]; simpl; [reflexivity|].
  destruct (isspace c) eqn:E; [exact IH|]. simpl. now rewrite E.
Qed.

Lemma skip_space_suffix inp : exists ws, inp = ws ++ skip_space inp /\ forallb isspace ws = true.
Proof.
  induction inp as [|c inp [ws [IH1 IH2]]]; simpl.
  - now exists [].
  - destruct (isspace c) eqn:E.
    + exists (c :: ws). simpl. rewrite E, IH2. split; [now f_equal|reflexivity].
    + now exists [].
Qed.

(** What [scan_while] returns: a split of the input. *)
Lemma scan_while_split p w inp :
  forall tok rest, scan_while p w inp = (tok, rest) ->
    inp = tok ++ rest /\ forallb p tok = true /\ (length tok <= w)%nat.
Proof.
  revert inp. induction w as [|w IH]; intros inp tok rest; simpl.
  - destruct inp; intros [= <- <-]; simpl; repeat split; lia.
  - destruct inp as [|c inp]; [intros [= <- <-]; simpl; repeat split; lia|].
    destruct (p c) eqn:E; [|intros [= <- <-]; simpl; repeat split; lia].
    destruct (scan_while p w inp) as [tok' rest'] eqn:S.
    intros [= <- <-]. destruct (IH _ _ _ S) as (-> & Hp & Hl).
    simpl. rewrite E, Hp. repeat split. lia.
Qed.

(** A run of [p]-bytes is consumed up to the field width. *)
Lemma scan_while_run p w tok rest :
  forallb p tok = true ->
  stops p rest = true \/ (w <= length tok)%nat ->
  scan_while p w (tok ++ rest) = (firstn w tok, skipn w tok ++ rest).
Proof.
  revert tok. induction w as [|w IH]; intros tok Hp Hend.
  - unfold scan_while. rewrite skipn_O. now destruct (tok ++ rest).
  - destruct tok as [|c tok]; simpl.
    + destruct Hend as [Hs|Hl]; [|simpl in Hl; lia].
      destruct rest as [|d rest]; [reflexivity|].
      simpl in Hs. apply negb_true_iff in Hs. now rewrite Hs.
    + simpl in Hp. apply andb_prop in Hp as [Hc Hp]. rewrite Hc.
      rewrite IH; [reflexivity|assumption|].
      destruct Hend as [Hs|Hl]; [now left|right; simpl in Hl; lia].
Qed.

Lemma scan_while_whole p w tok rest :
  forallb p tok = true -> (length tok <= w)%nat -> stops p rest = true ->
  scan_while p w (tok ++ rest) = (tok, rest).
Proof.
  intros Hp Hl Hs. rewrite scan_while_run by auto.
  now rewrite firstn_all2, skipn_all2 by assumption.
Qed.

End ScanFacts.

(** ** One directive at a time *)

Section DirectiveFacts.

Variable fmt : list directive.
Variable assigned : list (list ascii).

Lemma scan_D_space ws inp :
  forallb isspace ws = true -> stops isspace inp = true ->
  scan_directives (D_space :: fmt) (ws ++ inp) assigned
  = scan_directives fmt inp assigned.
Proof.
  intros Hws Hinp. cbn [scan_directives].
  now rewrite skip_space_all, skip_space_stops.
Qed.

Lemma scan_D_space_all ws :
  forallb isspace ws = true ->
  scan_directives (D_space :: fmt) ws assigned = scan_directives fmt [] assigned.
Proof.
  intros Hws. rewrite <- (app_nil_r ws) at 1. now apply scan_D_space.
Qed.

Lemma stops_space_token tok rest :
  forallb not_space tok = true -> tok <> [] -> stops isspace (tok ++ rest) = true.
Proof.
  destruct tok as [|c tok]; [congruence|]. simpl. intros H _.
  apply andb_prop in H as [Hc _]. unfold not_space in Hc.
  now rewrite negb_true_iff in *.
Qed.

Lemma scan_D_s w ws tok rest :
  forallb isspace ws = true ->
  forallb not_space tok = true -> tok <> [] ->
  stops not_space rest = true \/ (w <= length tok)%nat ->
  scan_directives (D_s w :: fmt) (ws ++ tok ++ rest) assigned
  = scan_directives fmt (skipn w tok ++ rest) (assigned ++ [firstn w tok]).
Proof.
  intros Hws Htok Hne Hend. cbn [scan_directives].
  rewrite skip_space_all by assumption.
  rewrite skip_space_stops by now apply stops_space_token.
  destruct (tok ++ rest) as [|c inp] eqn:E.
  { destruct tok; [congruence|discriminate]. }
  rewrite <- E, scan_while_run by assumption. reflexivity.
Qed.

Lemma scan_D_s_here w tok rest :
  forallb not_space tok = true -> tok <> [] ->
  stops not_space rest = true \/ (w <= length tok)%nat ->
  scan_directives (D_s w :: fmt) (tok ++ rest) assigned
  = scan_directives fmt (skipn w tok ++ rest) (assigned ++ [firstn w tok]).
Proof. exact (scan_D_s w [] tok rest eq_refl). Qed.

Lemma scan_D_s_end w ws :
  forallb isspace ws = true ->
  scan_directives (D_s w :: fmt) ws assigned = input_failure assigned.
Proof.
  intros Hws. cbn [scan_directives].
  rewrite <- (app_nil_r ws), skip_space_all by assumption. reflexivity.
Qed.

Lemma scan_D_not_nl w tok rest :
  forallb not_newline tok = true -> tok <> [] ->
  stops not_newline rest = true \/ (w <= length tok)%nat ->
  scan_directives (D_not_nl w :: fmt) (tok ++ rest) assigned
  = scan_directives fmt (skipn w tok ++ rest) (assigned ++ [firstn w tok]).
Proof.
  intros Htok Hne Hend. cbn [scan_directives].
  destruct (tok ++ rest) as [|c inp] eqn:E.
  { destruct tok; [congruence|discriminate]. }
  assert (Hc : not_newline c = true).
  { destruct tok as [|d tok]; [congruence|]. injection E as -> _.
    simpl in Htok. now apply andb_prop in Htok. }
  rewrite Hc, <- E, scan_while_run by assumption. reflexivity.
Qed.

End DirectiveFacts.

(** ** Parsing a well-formed request line *)

Section RequestLines.

Lemma valid_key_inv K :
  valid_key K = true ->
  forallb key_char K = true /\ K <> [] /\ (length K <= 255)%nat.
Proof.
  unfold valid_key. intros H.
  apply andb_prop in H as [H Hl]. apply andb_prop in H as [Hc Hn].
  apply Nat.leb_le in Hl. apply negb_true_iff, Nat.eqb_neq in Hn.
  repeat split; [assumption| |exact Hl]. now intros ->.
Qed.

Lemma valid_value_inv V :
  valid_value V = true ->
  forallb value_char V = true /\ (length V <= 767)%nat /\ stops isspace V = true.
Proof.
  unfold valid_value, bounded_value. intros H.
  apply andb_prop in H as [H Hs]. apply andb_prop in H as [Hc Hl].
  apply Nat.leb_le in Hl. repeat split; [assumption|exact Hl|assumption].
Qed.

Lemma key_char_not_space c : key_char c = true -> not_space c = true.
Proof. unfold key_char. intros H. now apply andb_prop in H. Qed.

Lemma value_char_not_newline c : value_char c = true -> not_newline c = true.
Proof. unfold value_char. intros H. now apply andb_prop in H. Qed.

Lemma eol_space nl : forallb isspace (eol nl) = true.
Proof. now destruct nl. Qed.

Lemma eol_no_nul nl : forallb not_nul (eol nl) = true.
Proof. now destruct nl. Qed.

(** A command token, white space, a key, white space and a value (the
    last two possibly absent), up to the end of the line. *)
Lemma sscanf_line cmd sep1 K sep2 V nl :
  forallb key_char cmd = true -> cmd <> [] -> (length cmd <= 15)%nat ->
  forallb isspace sep1 = true -> sep1 <> [] ->
  valid_key K = true ->
  forallb isspace sep2 = true ->
  valid_value V = true ->
  V = [] \/ sep2 <> [] ->
  sscanf (cmd ++ sep1 ++ K ++ sep2 ++ V ++ eol nl) request_format
  = match V with
    | [] => (2, [cmd; K])
    | _ => (3, [cmd; K; V])
    end.
Proof.
  intros Hcmd Hcne Hclen Hs1 Hs1ne HK Hs2 HV Hsep.
  apply valid_key_inv in HK as (HKc & HKne & HKlen).
  apply valid_value_inv in HV as (HVc & HVlen & HVs).
  unfold sscanf. rewrite c_str_no_nul.
  2:{ rewrite !forallb_app.
      rewrite (forallb_impl _ _ _ key_char_not_nul Hcmd).
      rewrite (forallb_impl _ _ _ isspace_not_nul Hs1).
      rewrite (forallb_impl _ _ _ key_char_not_nul HKc).
      rewrite (forallb_impl _ _ _ isspace_not_nul Hs2).
      rewrite (forallb_impl _ _ _ value_char_not_nul HVc).
      now rewrite eol_no_nul. }
  unfold request_format.
  (* %15s *)
  rewrite (scan_D_s_here _ _ 15 cmd); [| |assumption|].
  2:{ exact (forallb_impl _ _ _ key_char_not_space Hcmd). }
  2:{ left. destruct sep1 as [|c s]; [congruence|]. simpl in *.
      apply andb_prop in Hs1 as [Hc _]. unfold not_space. now rewrite Hc. }
  rewrite firstn_all2, skipn_all2 by assumption. cbn [app].
  (* white space, then %255s *)
  rewrite scan_D_space; [|assumption|].
  2:{ apply stops_space_token; [|assumption].
      exact (forallb_impl _ _ _ key_char_not_space HKc). }
  rewrite (scan_D_s_here _ _ 255 K); [| |assumption|].
  2:{ exact (forallb_impl _ _ _ key_char_not_space HKc). }
  2:{ left. destruct sep2 as [|c s].
      - destruct Hsep as [->|]; [|congruence]. now destruct nl.
      - simpl in *. apply andb_prop in Hs2 as [Hc _].
        unfold not_space. now rewrite Hc. }
  rewrite firstn_all2, skipn_all2 by assumption. cbn [app].
  (* white space, then %767[^\n] *)
  destruct V as [|v V].
  - cbn [app]. rewrite scan_D_space_all.
    2:{ now rewrite forallb_app, Hs2, eol_space. }
    reflexivity.
  - rewrite scan_D_space by assumption.
    rewrite scan_D_not_nl; [| |discriminate|].
    2:{ exact (forallb_impl _ _ _ value_char_not_newline HVc). }
    2:{ left. now destruct nl. }
    rewrite firstn_all2, skipn_all2 by assumption. reflexivity.
Qed.

(** [handle_client] on a request that fits the buffer. *)
Lemma handle_client_line flt st line n args :
  line <> [] -> fits_buffer line = true ->
  sscanf line request_format = (n, args) ->
  handle_client flt st (RecvData line)
  = if Z.leb 2 n
    then Returned (parse_message flt st (nth 0 args []) (nth 1 args [])
                                 (if Z.eqb n 3 then nth 2 args [] else []))
    else Returned (mk_served (sock_write MSG_ARGS 36) st []).
Proof.
  intros Hne Hfit Hscan. unfold handle_client, sock_read.
  apply Nat.leb_le in Hfit. rewrite firstn_all2 by exact Hfit.
  destruct (Z.leb_spec (Z.of_nat (length line)) 0) as [Hle|_].
  { destruct line; [congruence|]. simpl in Hle. lia. }
  now rewrite Hscan.
Qed.

End RequestLines.

(** ** Facts about the file system *)


Section FileSystemFacts.

Variable w : fs.

Lemma fs_eta : mk_fs (route w) (entries w) (inodes w) = w.
Proof. now destruct w. Qed.










End FileSystemFacts.

(** ** The three commands *)

Section Dispatch.

Variable flt : io_faults.
Variable w : fs.





Lemma reply_no_nul content :
  forallb not_nul content = true ->
  forallb not_nul (MSG_OK ++ content ++ [LF]) = true.
Proof. intros H. now rewrite !forallb_app, H. Qed.

Lemma c_str_shorter l : (length (c_str l) <= length l)%nat.
Proof.
  induction l as [|c l IH]; simpl; [lia|].
  destruct (Ascii.eqb c NUL); simpl; lia.
Qed.

(** The reply to a GET that could read. *)
Lemma get_response_bytes content :
  sock_write (snprintf_ok BUFFER_SIZE (firstn (MAX_VALUE_LEN - 1) content))
             (strlen (snprintf_ok BUFFER_SIZE (firstn (MAX_VALUE_LEN - 1) content)))
  = MSG_OK ++ c_str (firstn (MAX_VALUE_LEN - 1) content) ++ [LF].
Proof.
  assert (E : snprintf_ok BUFFER_SIZE (firstn (MAX_VALUE_LEN - 1) content)
              = MSG_OK ++ c_str (firstn (MAX_VALUE_LEN - 1) content) ++ [LF]).
  { unfold snprintf_ok.
    change (lit "OK" ++ [LF] ++ ?x) with (MSG_OK ++ x).
    apply firstn_all2. rewrite !length_app.
    change (MAX_VALUE_LEN - 1)%nat with 767%nat.
    pose proof (c_str_shorter (firstn 767 content)) as H.
    rewrite length_firstn in H.
    change (length MSG_OK) with 3%nat. change (length [LF]) with 1%nat.
    change (BUFFER_SIZE - 1)%nat with 1023%nat. lia. }
  rewrite E. unfold sock_write, strlen.
  rewrite c_str_no_nul by apply reply_no_nul, c_str_has_no_nul.
  apply firstn_all.
Qed.

(** A GET, by what the key leads to. *)
Lemma parse_message_GET K V :
  forallb not_nul K = true ->
  parse_message flt w (lit "GET") K V
  = if open_fails flt then mk_served MSG_NOTFOUND w [FsOpenRead K]
    else match reached w K with
         | Some (Regular content) =>
             if read_fails flt
             then mk_served MSG_ERROR w [FsOpenRead K; FsRead K 767; FsClose K]
             else mk_served (MSG_OK ++ c_str (firstn 767 content) ++ [LF]) w
                            [FsOpenRead K; FsRead K 767; FsClose K]
         | Some (Special yield) =>
             if read_fails flt
             then mk_served MSG_ERROR w [FsOpenRead K; FsRead K 767; FsClose K]
             else mk_served (MSG_OK ++ c_str (firstn 767 yield) ++ [LF]) w
                            [FsOpenRead K; FsRead K 767; FsClose K]
         | Some Directory =>
             mk_served MSG_ERROR w [FsOpenRead K; FsRead K 767; FsClose K]
         | _ => mk_served MSG_NOTFOUND w [FsOpenRead K]
         end.
Proof.
  intros HK. unfold parse_message.
  change (get_command_type (lit "GET")) with CMD_GET. cbv iota.
  unfold open_read, file_read, reached, node_at. rewrite (c_str_no_nul K HK).
  destruct (open_fails flt); [reflexivity|].
  destruct (open_entry w K) as [e|]; [|reflexivity].
  destruct (entries w !! e) as [i|]; [|reflexivity].
  destruct (inodes w !! i) as [[content| |yield|t]|] eqn:Hi; try reflexivity.
  - rewrite Hi. destruct (read_fails flt); [reflexivity|].
    cbv zeta. now rewrite get_response_bytes.
  - rewrite Hi. now destruct (read_fails flt).
  - rewrite Hi. destruct (read_fails flt); [reflexivity|].
    cbv zeta. now rewrite get_response_bytes.
Qed.

Lemma parse_message_DEL K V :
  forallb not_nul K = true ->
  parse_message flt w (lit "DEL") K V
  = mk_served MSG_OK (if remove_fails flt then w else unlinked w K) [FsRemove K].
Proof.
  intros HK. unfold parse_message.
  change (get_command_type (lit "DEL")) with CMD_DEL. cbv iota.
  unfold remove, unlinked. rewrite (c_str_no_nul K HK).
  destruct (remove_fails flt); [reflexivity|].
  destruct (unlink_entry w K) as [e|]; [|reflexivity].
  destruct (entries w !! e) eqn:E; [reflexivity|].
  cbn. now rewrite delete_id, fs_eta.
Qed.

(** A command that is none of the three is not dispatched to the store. *)
Lemma get_command_type_unknown command :
  c_str command <> lit "SET" -> c_str command <> lit "GET" ->
  c_str command <> lit "DEL" ->
  get_command_type command = CMD_UNKNOWN.
Proof.
  intros HS HG HD. unfold get_command_type.
  destruct (Z.eqb_spec (strcmp command (lit "SET")) 0) as [E|_].
  { apply strcmp_zero in E. contradiction. }
  destruct (Z.eqb_spec (strcmp command (lit "GET")) 0) as [E|_].
  { apply strcmp_zero in E. contradiction. }
  destruct (Z.eqb_spec (strcmp command (lit "DEL")) 0) as [E|_].
  { apply strcmp_zero in E. contradiction. }
  reflexivity.
Qed.

Lemma parse_message_UNKNOWN command K V :
  get_command_type command = CMD_UNKNOWN ->
  parse_message flt w command K V = mk_served MSG_ERROR w [].
Proof. intros H. unfold parse_message. now rewrite H. Qed.

End Dispatch.

(** After the entry of K is removed, K leads to nothing. *)
Lemma reached_unlinked w K : reached (unlinked w K) K = None.
Proof.
  unfold unlinked, unlink_entry.
  destruct (route w K) as [[via e]|] eqn:Hr.
  - destruct (forallb (passable w) via) eqn:Hvia.
    + set (w' := mk_fs (route w) (delete e (entries w)) (inodes w)).
      assert (Hn : node_at w' e = None).
      { unfold node_at, w'. cbn [entries]. now rewrite lookup_delete_eq. }
      unfold reached, open_entry, MAXSYMLINKS.
      change (route w') with (route w). rewrite Hr. cbn [follow].
      destruct (forallb (passable w') via); [|reflexivity].
      rewrite Hn. exact Hn.
    + unfold reached, open_entry, MAXSYMLINKS. rewrite Hr. cbn [follow].
      now rewrite Hvia.
  - unfold reached, open_entry, MAXSYMLINKS. now rewrite Hr.
Qed.

(** ** What the parser can return, on any buffer *)

Section ParserShape.

Lemma forallb_and (p q : ascii -> bool) s :
  forallb p s = true -> forallb q s = true ->
  forallb (fun c => p c && q c) s = true.
Proof.
  induction s as [|c s IH]; simpl; [reflexivity|].
  intros Hp Hq. apply andb_prop in Hp as [-> Hp].
  apply andb_prop in Hq as [-> Hq]. now rewrite IH.
Qed.

Lemma skip_space_no_nul inp :
  forallb not_nul inp = true -> forallb not_nul (skip_space inp) = true.
Proof.
  intros H. destruct (skip_space_suffix inp) as (ws & E & _).
  rewrite E, forallb_app in H. now apply andb_prop in H.
Qed.

Lemma scan_while_first p w c inp :
  p c = true ->
  exists tok rest, scan_while p (S w) (c :: inp) = (c :: tok, rest).
Proof.
  intros Hc. simpl. rewrite Hc.
  destruct (scan_while p w inp) as [tok rest]. now exists tok, rest.
Qed.

Variable fmt : list directive.
Variable assigned : list (list ascii).

Lemma scan_D_s_cases w inp :
  forallb not_nul inp = true ->
  scan_directives (D_s (S w) :: fmt) inp assigned = input_failure assigned
  \/ exists tok rest,
      token (S w) tok /\ forallb not_nul rest = true
      /\ scan_directives (D_s (S w) :: fmt) inp assigned
         = scan_directives fmt rest (assigned ++ [tok]).
Proof.
  intros Hn. cbn [scan_directives].
  pose proof (skip_space_result inp) as Hs.
  pose proof (skip_space_no_nul _ Hn) as Hn'.
  destruct (skip_space inp) as [|c inp']; [now left|right].
  simpl in Hs. apply negb_true_iff in Hs.
  destruct (scan_while_first not_space w c inp') as (tok & rest & E).
  { unfold not_space. now rewrite Hs. }
  rewrite E. exists (c :: tok), rest.
  destruct (scan_while_split _ _ _ _ _ E) as (Hsplit & Hp & Hl).
  rewrite Hsplit, forallb_app in Hn'. apply andb_prop in Hn' as [Hn1 Hn2].
  repeat split; try assumption; [discriminate|].
  apply (forallb_and not_space not_nul); assumption.
Qed.

Lemma scan_D_not_nl_cases w inp :
  forallb not_nul inp = true -> stops isspace inp = true ->
  (w < 767)%nat ->
  scan_directives (D_not_nl (S w) :: fmt) inp assigned
  = match assigned with [] => (EOF, []) | _ => (Z.of_nat (length assigned), assigned) end
  \/ exists v rest,
      captured v
      /\ scan_directives (D_not_nl (S w) :: fmt) inp assigned
         = scan_directives fmt rest (assigned ++ [v]).
Proof.
  intros Hn Hs Hw. cbn [scan_directives].
  destruct inp as [|c inp']; [now left|].
  destruct (not_newline c) eqn:Hc.
  2:{ exfalso. simpl in Hs. unfold not_newline in Hc.
      apply negb_false_iff, Ascii.eqb_eq in Hc. now subst c. }
  right.
  destruct (scan_while_first not_newline w c inp' Hc) as (tok & rest & E).
  rewrite E. exists (c :: tok), rest.
  destruct (scan_while_split _ _ _ _ _ E) as (Hsplit & Hp & Hl).
  rewrite Hsplit, forallb_app in Hn. apply andb_prop in Hn as [Hn1 Hn2].
  split; [|reflexivity].
  repeat split; [discriminate| |lia|exact Hs].
  apply (forallb_and not_newline not_nul); assumption.
Qed.

End ParserShape.

Lemma sscanf_parsed buffer :
  parsed (fst (sscanf buffer request_format)) (snd (sscanf buffer request_format)).
Proof.
  unfold sscanf, request_format.
  pose proof (c_str_has_no_nul buffer) as Hn. revert Hn.
  generalize (c_str buffer). intros inp Hn.
  destruct (scan_D_s_cases [D_space; D_s 255; D_space; D_not_nl 767] [] 14 inp Hn)
    as [E|(c & r1 & Hc & Hr1 & E)]; rewrite E; [constructor|]. clear E.
  change (scan_directives [D_space; D_s 255; D_space; D_not_nl 767] r1 ([] ++ [c]))
    with (scan_directives [D_s 255; D_space; D_not_nl 767] (skip_space r1) [c]).
  destruct (scan_D_s_cases [D_space; D_not_nl 767] [c] 254 (skip_space r1)
                           (skip_space_no_nul _ Hr1))
    as [E|(k & r2 & Hk & Hr2 & E)]; rewrite E; [now constructor|]. clear E.
  change (scan_directives [D_space; D_not_nl 767] r2 ([c] ++ [k]))
    with (scan_directives [D_not_nl 767] (skip_space r2) [c; k]).
  destruct (scan_D_not_nl_cases [] [c; k] 766 (skip_space r2)
                                (skip_space_no_nul _ Hr2) (skip_space_result r2))
    as [E|(v & r3 & Hv & E)]; [lia| |]; rewrite E; now constructor.
Qed.

Lemma token_c_str w t : token w t -> c_str t = t.
Proof.
  intros (_ & H & _). apply c_str_no_nul.
  exact (forallb_impl _ _ _ key_char_not_nul H).
Qed.

(** ** From a request line to the dispatched command *)

Section LineToCommand.

Variable flt : io_faults.
Variable st : fs.

Lemma handle_command_line cmd sep1 K sep2 V nl :
  forallb key_char cmd = true -> cmd <> [] -> (length cmd <= 15)%nat ->
  forallb isspace sep1 = true -> sep1 <> [] ->
  valid_key K = true ->
  forallb isspace sep2 = true ->
  valid_value V = true ->
  V = [] \/ sep2 <> [] ->
  fits_buffer (cmd ++ sep1 ++ K ++ sep2 ++ V ++ eol nl) = true ->
  handle_client flt st (RecvData (cmd ++ sep1 ++ K ++ sep2 ++ V ++ eol nl))
  = Returned (parse_message flt st cmd K V).
Proof.
  intros Hcmd Hcne Hclen Hs1 Hs1ne HK Hs2 HV Hsep Hfit.
  pose proof (sscanf_line cmd sep1 K sep2 V nl
                          Hcmd Hcne Hclen Hs1 Hs1ne HK Hs2 HV Hsep) as Hscan.
  assert (Hne : cmd ++ sep1 ++ K ++ sep2 ++ V ++ eol nl <> []).
  { destruct cmd; [congruence|discriminate]. }
  destruct V as [|v V];
    now rewrite (handle_client_line flt st _ _ _ Hne Hfit Hscan).
Qed.

Lemma valid_key_no_nul K : valid_key K = true -> forallb not_nul K = true.
Proof.
  intros H. apply valid_key_inv in H as (H & _).
  exact (forallb_impl _ _ _ key_char_not_nul H).
Qed.


(** A command and a key always fit the buffer. *)
Lemma two_tokens_fit cmd K nl :
  (length cmd <= 15)%nat -> valid_key K = true ->
  fits_buffer (cmd ++ [sp] ++ K ++ [] ++ [] ++ eol nl) = true.
Proof.
  intros Hc HK. apply valid_key_inv in HK as (_ & _ & HK).
  unfold fits_buffer. apply Nat.leb_le. rewrite !length_app.
  change (BUFFER_SIZE - 1)%nat with 1023%nat.
  assert (length (eol nl) <= 1)%nat by (destruct nl; simpl; lia).
  simpl length. lia.
Qed.


Lemma handle_GET_line K nl :
  valid_key K = true ->
  handle_client flt st (RecvData (GET_line K nl))
  = Returned (parse_message flt st (lit "GET") K []).
Proof.
  intros HK.
  change (GET_line K nl) with (lit "GET" ++ [sp] ++ K ++ [] ++ [] ++ eol nl).
  apply handle_command_line; try assumption; try reflexivity.
  - discriminate.
  - simpl. lia.
  - discriminate.
  - now left.
  - apply two_tokens_fit; [simpl; lia|assumption].
Qed.

Lemma handle_DEL_line K nl :
  valid_key K = true ->
  handle_client flt st (RecvData (DEL_line K nl))
  = Returned (parse_message flt st (lit "DEL") K []).
Proof.
  intros HK.
  change (DEL_line K nl) with (lit "DEL" ++ [sp] ++ K ++ [] ++ [] ++ eol nl).
  apply handle_command_line; try assumption; try reflexivity.
  - discriminate.
  - simpl. lia.
  - discriminate.
  - now left.
  - apply two_tokens_fit; [simpl; lia|assumption].
Qed.

End LineToCommand.

(** ** The read phase *)

(** C3: when the read on the accepted connection returns zero or a negative
    count, [handle_client] exits the process with [EXIT_FAILURE]; when it
    returns a positive count, [handle_client] does not exit: it parses the
    buffer with [sscanf] and returns what the dispatch of the parsed
    request, or the malformed-request branch, leaves. *)
Theorem read_failure_exits flt st ev :
  (fst (sock_read ev (BUFFER_SIZE - 1)) <= 0 ->
   handle_client flt st ev = Exited EXIT_FAILURE)
  /\ (0 < fst (sock_read ev (BUFFER_SIZE - 1)) ->
      handle_client flt st ev
      = Returned
          (if Z.leb 2 (fst (sscanf (buffer_of ev) request_format))
           then parse_message flt st (command_of ev) (key_of ev)
                  (if Z.eqb (fst (sscanf (buffer_of ev) request_format)) 3
                   then nth 2 (snd (sscanf (buffer_of ev) request_format)) []
                   else [])
           else mk_served MSG_MALFORMED st [])).
Proof.
  unfold handle_client, command_of, key_of, buffer_of.
  destruct (sock_read ev (BUFFER_SIZE - 1)) as [bytes_received buffer].
  cbn [fst snd]. split; intros H.
  - destruct (Z.leb_spec bytes_received 0); [reflexivity|lia].
  - destruct (Z.leb_spec bytes_received 0); [lia|].
    destruct (sscanf buffer request_format) as [parsed_args args].
    cbn [fst snd]. now destruct (Z.leb 2 parsed_args).
Qed.

Lemma read_failure_exits_witness :
  handle_client no_faults (cwd_fs []) RecvError = Exited EXIT_FAILURE
  /\ handle_client no_faults (cwd_fs []) (RecvData []) = Exited EXIT_FAILURE
  /\ handle_client no_faults (cwd_fs []) (RecvData (lit "GET k"))
     = Returned
         (if Z.leb 2 (fst (sscanf (buffer_of (RecvData (lit "GET k"))) request_format))
          then parse_message no_faults (cwd_fs []) (command_of (RecvData (lit "GET k")))
                 (key_of (RecvData (lit "GET k")))
                 (if Z.eqb (fst (sscanf (buffer_of (RecvData (lit "GET k"))) request_format)) 3
                  then nth 2 (snd (sscanf (buffer_of (RecvData (lit "GET k")))
                                          request_format)) []
                  else [])
          else mk_served MSG_MALFORMED (cwd_fs []) []).
Proof.
  split; [|split].
  - apply (proj1 (read_failure_exits no_faults (cwd_fs []) RecvError)).
    vm_compute. discriminate.
  - apply (proj1 (read_failure_exits no_faults (cwd_fs []) (RecvData []))).
    vm_compute. discriminate.
  - apply (proj2 (read_failure_exits no_faults (cwd_fs []) (RecvData (lit "GET k")))).
    reflexivity.
Defined.

Example positive_read_is_parsed :
  handle_client no_faults (cwd_fs []) (RecvData (lit "GET k"))
  = Returned (mk_served MSG_NOTFOUND (cwd_fs []) [FsOpenRead (lit "k")]).
Proof. reflexivity. Qed.

(** ** The parse phase *)

(** C5: when the read returned some bytes and [sscanf] assigns fewer than
    two tokens, the handler writes the malformed-request message, makes no
    file call and leaves the store as it was. *)
Theorem too_few_tokens_not_dispatched flt st ev :
  0 < fst (sock_read ev (BUFFER_SIZE - 1)) ->
  fst (sscanf (snd (sock_read ev (BUFFER_SIZE - 1))) request_format) < 2 ->
  handle_client flt st ev = Returned (mk_served MSG_MALFORMED st []).
Proof.
  unfold handle_client.
  destruct (sock_read ev (BUFFER_SIZE - 1)) as [bytes_received buffer].
  cbn [fst snd]. intros Hread.
  destruct (Z.leb_spec bytes_received 0); [lia|].
  destruct (sscanf buffer request_format) as [parsed_args args].
  cbn [fst]. intros Hargs.
  destruct (Z.leb_spec 2 parsed_args); [lia|reflexivity].
Qed.

Lemma too_few_tokens_not_dispatched_witness :
  handle_client no_faults (cwd_fs [(lit "foo", lit "bar")]) (RecvData (lit "SET" ++ [LF]))
  = Returned (mk_served MSG_MALFORMED (cwd_fs [(lit "foo", lit "bar")]) []).
Proof. apply too_few_tokens_not_dispatched; reflexivity. Defined.

(** A line of white space only, and a line with one short token, are such
    requests. *)
Lemma blank_line_parses_nothing ws :
  forallb isspace ws = true -> sscanf ws request_format = (EOF, []).
Proof.
  intros H. unfold sscanf, request_format.
  rewrite c_str_no_nul by exact (forallb_impl _ _ _ isspace_not_nul H).
  now rewrite scan_D_s_end.
Qed.

Lemma one_token_parses_one lead tok trail :
  forallb isspace lead = true -> forallb key_char tok = true -> tok <> [] ->
  (length tok <= 15)%nat -> forallb isspace trail = true ->
  sscanf (lead ++ tok ++ trail) request_format = (1, [tok]).
Proof.
  intros Hl Ht Hne Hlen Htr. unfold sscanf, request_format.
  rewrite c_str_no_nul.
  2:{ rewrite !forallb_app, (forallb_impl _ _ _ isspace_not_nul Hl).
      now rewrite (forallb_impl _ _ _ key_char_not_nul Ht),
        (forallb_impl _ _ _ isspace_not_nul Htr). }
  rewrite scan_D_s; [|assumption| |assumption|].
  2:{ exact (forallb_impl _ _ _ key_char_not_space Ht). }
  2:{ left. destruct trail as [|c trail]; [reflexivity|]. simpl in *.
      apply andb_prop in Htr as [Hc _]. unfold not_space. now rewrite Hc. }
  rewrite firstn_all2, skipn_all2 by assumption. cbn [app].
  rewrite scan_D_space_all by assumption.
  now rewrite (scan_D_s_end _ _ 255 []).
Qed.

(** ** The dispatch phase *)

(** C8: when at least two tokens are parsed and the command token is none
    of SET, GET and DEL, the handler replies [ERROR\n], makes no file call
    and leaves the store as it was. *)
Theorem unknown_command_error flt st ev parsed_args args :
  0 < fst (sock_read ev (BUFFER_SIZE - 1)) ->
  sscanf (snd (sock_read ev (BUFFER_SIZE - 1))) request_format = (parsed_args, args) ->
  2 <= parsed_args ->
  nth 0 args [] <> lit "SET" ->
  nth 0 args [] <> lit "GET" ->
  nth 0 args [] <> lit "DEL" ->
  handle_client flt st ev = Returned (mk_served MSG_ERROR st []).
Proof.
  unfold handle_client.
  destruct (sock_read ev (BUFFER_SIZE - 1)) as [bytes_received buffer].
  cbn [fst snd]. intros Hread Hscan Hargs HS HG HD.
  destruct (Z.leb_spec bytes_received 0); [lia|].
  pose proof (sscanf_parsed buffer) as Hshape. rewrite Hscan in *.
  cbn [fst snd] in Hshape.
  destruct (Z.leb_spec 2 parsed_args); [|lia].
  f_equal. apply parse_message_UNKNOWN.
  assert (Hc : c_str (nth 0 args []) = nth 0 args []).
  { destruct Hshape as [|c Hc|c k Hc Hk|c k v Hc Hk Hv]; try reflexivity;
      exact (token_c_str _ _ Hc). }
  apply get_command_type_unknown; now rewrite Hc.
Qed.

Lemma unknown_command_error_witness :
  handle_client no_faults (cwd_fs [(lit "bar", lit "x")]) (RecvData (lit "FOO bar" ++ [LF]))
  = Returned (mk_served MSG_ERROR (cwd_fs [(lit "bar", lit "x")]) []).
Proof.
  apply (unknown_command_error _ _ _ 2 [lit "FOO"; lit "bar"]);
    try reflexivity; try discriminate.
Defined.

(** C4: for every key, [DEL K] is answered [OK\n] whatever the store holds
    and whether or not [remove] succeeds; the entry that K names is gone
    when [remove] succeeded and the store is as before otherwise. *)
Theorem del_replies_ok_always flt st K nl :
  valid_key K = true ->
  handle_client flt st (RecvData (DEL_line K nl))
  = Returned (mk_served MSG_OK (if remove_fails flt then st else unlinked st K)
                        [FsRemove K]).
Proof.
  intros HK. rewrite handle_DEL_line by assumption.
  now rewrite parse_message_DEL by now apply valid_key_no_nul.
Qed.

Lemma del_replies_ok_always_witness :
  handle_client (mk_faults false false false true) (cwd_fs [(lit "foo", lit "bar")])
                (RecvData (DEL_line (lit "foo") true))
  = Returned (mk_served MSG_OK (cwd_fs [(lit "foo", lit "bar")]) [FsRemove (lit "foo")]).
Proof.
  apply (del_replies_ok_always (mk_faults false false false true)
           (cwd_fs [(lit "foo", lit "bar")])).
  reflexivity.
Defined.

Example del_removes_the_record :
  record (cwd_fs [(lit "foo", lit "bar")]) (lit "foo") = Some (lit "bar")
  /\ record (unlinked (cwd_fs [(lit "foo", lit "bar")]) (lit "foo")) (lit "foo") = None.
Proof. split; reflexivity. Qed.

(** C6, as the code has it: for every key that leads to nothing that can
    be opened (no regular file, no directory, no device), [GET K] is
    answered [NOTFOUND\n] and the store is left as it was. *)
Theorem get_missing_notfound flt st K nl :
  valid_key K = true ->
  reached st K = None ->
  handle_client flt st (RecvData (GET_line K nl))
  = Returned (mk_served MSG_NOTFOUND st [FsOpenRead K]).
Proof.
  intros HK Hmiss. rewrite handle_GET_line by assumption.
  rewrite parse_message_GET by now apply valid_key_no_nul.
  rewrite Hmiss. now destruct (open_fails flt).
Qed.

Lemma get_missing_notfound_witness :
  handle_client no_faults (cwd_fs [(lit "bar", lit "x")])
                (RecvData (GET_line (lit "foo") true))
  = Returned (mk_served MSG_NOTFOUND (cwd_fs [(lit "bar", lit "x")])
                        [FsOpenRead (lit "foo")]).
Proof. apply get_missing_notfound; reflexivity. Defined.

(** A key that names a directory has no record file, yet the directory can
    be opened; the read then fails and the reply is [ERROR\n]. *)
Lemma get_directory_replies_error :
  valid_key [dot] = true
  /\ record (cwd_fs []) [dot] = None
  /\ handle_client no_faults (cwd_fs []) (RecvData (GET_line [dot] true))
     = Returned (mk_served MSG_ERROR (cwd_fs [])
                           [FsOpenRead [dot]; FsRead [dot] 767; FsClose [dot]])
  /\ MSG_ERROR <> MSG_NOTFOUND.
Proof. repeat split. discriminate. Qed.

(** ** A first token longer than the command field *)

Section LongToken.

Lemma c_str_app a b : forallb not_nul a = true -> c_str (a ++ b) = a ++ c_str b.
Proof.
  induction a as [|c a IH]; simpl; [reflexivity|].
  intros H. apply andb_prop in H as [Hc Ha].
  unfold not_nul in Hc. apply negb_true_iff in Hc. now rewrite Hc, IH.
Qed.

Lemma stops_c_str rest :
  stops key_char rest = true -> stops not_space (c_str rest) = true.
Proof.
  destruct rest as [|c rest]; simpl; [reflexivity|].
  unfold key_char, not_nul, not_space.
  destruct (Ascii.eqb c NUL); [reflexivity|]. simpl.
  now rewrite andb_true_r.
Qed.


(** After command and key, the last two directives keep what is assigned
    and add at most the value. *)
Lemma scan_value_tail inp c k :
  exists parsed_args args,
    scan_directives [D_space; D_not_nl 767] inp [c; k] = (parsed_args, args)
    /\ 2 <= parsed_args /\ nth 0 args [] = c /\ nth 1 args [] = k.
Proof.
  cbn [scan_directives].
  destruct (skip_space inp) as [|x inp'].
  { exists 2, [c; k]. repeat split. lia. }
  destruct (not_newline x).
  - destruct (scan_while not_newline 767 (x :: inp')) as [v rest].
    exists 3, [c; k; v]. repeat split. lia.
  - exists 2, [c; k]. repeat split. lia.
Qed.

Variables lead tok rest : list ascii.
Hypothesis lead_space : forallb isspace lead = true.
Hypothesis tok_chars : forallb key_char tok = true.
Hypothesis tok_long : (15 < length tok)%nat.
Hypothesis tok_ends : stops key_char rest = true.





End LongToken.







(** ** SET then GET *)


Lemma get_works_inv flt :
  get_works flt = true -> open_fails flt = false /\ read_fails flt = false.
Proof. unfold get_works. destruct (open_fails flt), (read_fails flt); now intros. Qed.





(** A command, one space and a key token, whatever follows. *)
Lemma sscanf_command_key cmd tok junk :
  forallb key_char cmd = true -> cmd <> [] -> (length cmd <= 15)%nat ->
  forallb key_char tok = true -> tok <> [] ->
  stops key_char junk = true ->
  exists parsed_args args,
    sscanf (cmd ++ [sp] ++ tok ++ junk) request_format = (parsed_args, args)
    /\ 2 <= parsed_args
    /\ nth 0 args [] = cmd
    /\ nth 1 args [] = firstn 255 tok.
Proof.
  intros Hcmd Hcne Hclen Htok Htne Hjunk.
  unfold sscanf.
  rewrite c_str_app by exact (forallb_impl _ _ _ key_char_not_nul Hcmd).
  rewrite (c_str_app [sp]) by reflexivity.
  rewrite c_str_app by exact (forallb_impl _ _ _ key_char_not_nul Htok).
  unfold request_format.
  rewrite (scan_D_s_here _ _ 15 cmd); [| |assumption|now left].
  2:{ exact (forallb_impl _ _ _ key_char_not_space Hcmd). }
  rewrite (firstn_all2 cmd), (skipn_all2 cmd) by assumption. rewrite !app_nil_l.
  rewrite (scan_D_space _ _ [sp]); [|reflexivity|].
  2:{ apply stops_space_token; [|assumption].
      exact (forallb_impl _ _ _ key_char_not_space Htok). }
  rewrite (scan_D_s_here _ _ 255 tok); [| |assumption|].
  2:{ exact (forallb_impl _ _ _ key_char_not_space Htok). }
  2:{ left. now apply stops_c_str. }
  apply scan_value_tail.
Qed.


Lemma record_reached w K content :
  record w K = Some content -> reached w K = Some (Regular content).
Proof.
  unfold record. destruct (reached w K) as [[c| |y|t]|]; try discriminate.
  now intros [= ->].
Qed.


Lemma handle_GET_ok flt st K content nl :
  valid_key K = true -> bounded_value content = true ->
  record st K = Some content -> get_works flt = true ->
  handle_client flt st (RecvData (GET_line K nl))
  = Returned (mk_served (MSG_OK ++ content ++ [LF]) st
                        [FsOpenRead K; FsRead K 767; FsClose K]).
Proof.
  intros HK HV Hst Hflt. apply get_works_inv in Hflt as [Ho Hr].
  rewrite handle_GET_line by assumption.
  rewrite parse_message_GET by now apply valid_key_no_nul.
  rewrite Ho, (record_reached _ _ _ Hst), Hr.
  unfold bounded_value in HV. apply andb_prop in HV as [Hc Hl].
  apply Nat.leb_le in Hl. change (MAX_VALUE_LEN - 1)%nat with 767%nat in Hl.
  rewrite firstn_all2 by exact Hl.
  now rewrite c_str_no_nul by exact (forallb_impl _ _ _ value_char_not_nul Hc).
Qed.





(** The white space before the value is not part of what is stored. *)
Example set_get_leading_space :
  replies (accept_loop (cwd_fs [])
             [Accepted no_faults (RecvData (SET_line (lit "k") (lit " x") false));
              Accepted no_faults (RecvData (GET_line (lit "k") false))])
  = [MSG_OK; MSG_OK ++ lit "x" ++ [LF]].
Proof. reflexivity. Qed.

(** An empty key is no key: the value is taken for it. *)
Example set_get_empty_key :
  replies (accept_loop (cwd_fs [])
             [Accepted no_faults (RecvData (SET_line [] (lit "v") false));
              Accepted no_faults (RecvData (GET_line [] false))])
  = [MSG_OK; MSG_MALFORMED].
Proof. reflexivity. Qed.

(** A file that cannot be opened for writing: the SET is answered
    [ERROR\n] and the GET finds nothing. *)
Example set_get_open_failure :
  replies (accept_loop (cwd_fs [])
             [Accepted (mk_faults true false false false)
                       (RecvData (SET_line (lit "k") (lit "v") false));
              Accepted no_faults (RecvData (GET_line (lit "k") false))])
  = [MSG_ERROR; MSG_NOTFOUND].
Proof. reflexivity. Qed.

(** A key that names a device: every file call succeeds and nothing is
    kept. *)
Example set_get_device :
  valid_key (lit "/dev/null") = true
  /\ record_entry (cwd_fs []) (lit "/dev/null") = None
  /\ replies (accept_loop (cwd_fs [])
                [Accepted no_faults (RecvData (SET_line (lit "/dev/null") (lit "x") true));
                 Accepted no_faults (RecvData (GET_line (lit "/dev/null") true))])
     = [MSG_OK; MSG_OK ++ [LF]].
Proof. repeat split. Qed.

(** A line of 1023 bytes followed by its newline is read without the
    newline and handled whole: a key of 251 bytes and a value of 767. *)
Example set_line_of_1024_bytes :
  length (SET_line (repeat "k"%char 251) V767 true) = 1024%nat
  /\ valid_key (repeat "k"%char 251) = true /\ valid_value V767 = true
  /\ fits_buffer (SET_line (repeat "k"%char 251) V767 false) = true
  /\ replies (accept_loop (cwd_fs [])
                [Accepted no_faults (RecvData (SET_line (repeat "k"%char 251) V767 true));
                 Accepted no_faults (RecvData (GET_line (repeat "k"%char 251) true))])
     = [MSG_OK; MSG_OK ++ V767 ++ [LF]].
Proof. repeat split; vm_compute; reflexivity. Qed.





(** ** The white space before the value *)


Lemma stops_firstn (p : ascii -> bool) n v : stops p v = true -> stops p (firstn n v) = true.
Proof. destruct n, v; simpl; auto. Qed.

(** The regular files a dispatched command leaves are those there were,
    but for one that is empty or holds the start of the value. *)
Lemma parse_message_inodes flt st command key value i c :
  inodes (store_after (parse_message flt st command key value)) !! i = Some (Regular c) ->
  inodes st !! i = Some (Regular c) \/ c = [] \/ c = firstn (strlen value) value.
Proof.
  unfold parse_message. destruct (get_command_type command).
  - unfold open_trunc.
    destruct (open_fails flt); cbn [store_after]; [now left|].
    destruct (open_entry st (c_str key)) as [e|]; cbn [store_after]; [|now left].
    unfold file_write.
    destruct (entries st !! e) as [j|].
    + destruct (inodes st !! j) as [[c0| |y|t]|] eqn:Hj; cbn [store_after];
        try (now left).
      * destruct (write_fails flt); cbn [store_after inodes].
        { destruct (decide (j = i)) as [->|Hne].
          - rewrite lookup_insert_eq. intros [= <-]. auto.
          - rewrite lookup_insert_ne by assumption. now left. }
        rewrite lookup_insert_eq. cbn [store_after inodes].
        rewrite skipn_nil, app_nil_r.
        destruct (decide (j = i)) as [->|Hne].
        { rewrite lookup_insert_eq. intros [= <-]. auto. }
        rewrite !lookup_insert_ne by assumption. now left.
      * destruct (write_fails flt); cbn [store_after]; [now left|].
        rewrite Hj. cbn [store_after]. now left.
    + destruct (write_fails flt); cbn [store_after inodes].
      { destruct (decide (fresh_ino st = i)) as [->|Hne].
        - rewrite lookup_insert_eq. intros [= <-]. auto.
        - rewrite lookup_insert_ne by assumption. now left. }
      rewrite lookup_insert_eq. cbn [store_after inodes].
      rewrite skipn_nil, app_nil_r.
      destruct (decide (fresh_ino st = i)) as [->|Hne].
      { rewrite lookup_insert_eq. intros [= <-]. auto. }
      rewrite !lookup_insert_ne by assumption. now left.
  - destruct (open_read flt st key) as [fd|]; [|now left].
    destruct (file_read flt st fd (MAX_VALUE_LEN - 1)); now left.
  - unfold remove. destruct (remove_fails flt); cbn [store_after Z.eqb]; [now left|].
    destruct (unlink_entry st (c_str key)) as [e|]; cbn [store_after Z.eqb]; [|now left].
    destruct (entries st !! e); cbn [store_after Z.eqb]; now left.
  - now left.
Qed.

(** A handled request is either rejected as malformed or dispatched with a
    command and a key that are tokens and a value that is empty or
    captured. *)
Lemma handle_client_cases flt st ev r :
  handle_client flt st ev = Returned r ->
  r = mk_served MSG_MALFORMED st []
  \/ exists value,
      token 15 (command_of ev) /\ token 255 (key_of ev)
      /\ (value = [] \/ captured value)
      /\ r = parse_message flt st (command_of ev) (key_of ev) value.
Proof.
  unfold handle_client, command_of, key_of, buffer_of.
  destruct (sock_read ev (BUFFER_SIZE - 1)) as [bytes_received buffer].
  cbn [snd]. destruct (Z.leb bytes_received 0); [discriminate|].
  pose proof (sscanf_parsed buffer) as Hshape.
  destruct (sscanf buffer request_format) as [parsed_args args].
  cbn [fst snd] in *.
  destruct (Z.leb_spec 2 parsed_args) as [Hle|Hlt]; intros [= <-]; [|now left].
  right.
  destruct Hshape as [|c Hc|c k Hc Hk|c k v Hc Hk Hv];
    try (unfold EOF in Hle; lia).
  - exists []. cbn. auto.
  - exists v. cbn. auto.
Qed.

(** No request at all leaves a regular file that starts with white space,
    unless the file was there before. *)
Lemma stored_value_no_leading_space flt st ev r i c :
  handle_client flt st ev = Returned r ->
  inodes (store_after r) !! i = Some (Regular c) ->
  inodes st !! i = Some (Regular c) \/ stops isspace c = true.
Proof.
  intros H Hi.
  destruct (handle_client_cases _ _ _ _ H) as [->|(v & _ & _ & Hv & ->)];
    [now left|].
  destruct (parse_message_inodes _ _ _ _ _ _ _ Hi) as [Hold|[-> | ->]];
    [now left|now right|right].
  apply stops_firstn. destruct Hv as [->|(_ & _ & _ & Hv)]; [reflexivity|exact Hv].
Qed.



Example skipped_run_value : skip_space (lit "  hello world") = lit "hello world".
Proof. reflexivity. Qed.

Example skipped_run_stored :
  record (files (accept_loop (cwd_fs []) [request "SET foo      hello world"])) (lit "foo")
  = Some (lit "hello world").
Proof. reflexivity. Qed.

(** ** The newline that ends a reply *)

(** Every reply of a dispatched command ends with a newline. *)
Lemma dispatched_reply_ends_newline flt st command key value :
  exists body, reply (parse_message flt st command key value) = body ++ [LF].
Proof.
  unfold parse_message. destruct (get_command_type command).
  - destruct (open_trunc flt st key) as [[st1 fd]|]; [|now exists (lit "ERROR")].
    destruct (file_write flt st1 fd value (strlen value));
      [now exists (lit "OK")|now exists (lit "ERROR")].
  - destruct (open_read flt st key) as [fd|]; [|now exists (lit "NOTFOUND")].
    destruct (file_read flt st fd (MAX_VALUE_LEN - 1)) as [content|] eqn:E;
      [|now exists (lit "ERROR")].
    unfold file_read in E. destruct (read_fails flt); [discriminate|].
    destruct (inodes st !! fd) as [[c| |y|t]|]; try discriminate;
      injection E as <-; cbn [reply]; rewrite get_response_bytes;
      eexists; now rewrite app_assoc.
  - destruct (remove flt st key) as [rc st1].
    destruct (Z.eqb rc 0); now exists (lit "OK").
  - now exists (lit "ERROR").
Qed.

(** C2, where the code departs from it: on the request [SET\n], from which
    one token is parsed, the handler writes the 36 bytes
    [ERROR: Incorrect number of arguments]; the count given to [write]
    leaves out the newline that ends the 37-byte literal, so the last byte of
    the reply is [s], not a newline. *)
Theorem malformed_reply_lacks_newline flt st :
  handle_client flt st (RecvData (lit "SET" ++ [LF]))
  = Returned (mk_served (lit "ERROR: Incorrect number of arguments") st [])
  /\ last (lit "ERROR: Incorrect number of arguments") = Some "s"%char
  /\ length MSG_ARGS = 37%nat
  /\ MSG_MALFORMED ++ [LF] = MSG_ARGS.
Proof. repeat split. Qed.

(** * Further properties of the server *)

(** ** Command names *)

Lemma c_str_nil_hd b : c_str b = [] -> hd NUL b = NUL.
Proof.
  destruct b as [|d b]; simpl; [reflexivity|].
  destruct (Ascii.eqb_spec d NUL); [auto|discriminate].
Qed.

Lemma strcmp_same a : forall b, c_str a = c_str b -> strcmp a b = 0.
Proof.
  induction a as [|c a IH]; intros b; simpl.
  - intros E. symmetry in E. now rewrite (c_str_nil_hd b E).
  - destruct (Ascii.eqb_spec c NUL) as [->|Hc].
    + intros E. symmetry in E. now rewrite (c_str_nil_hd b E).
    + destruct b as [|d b]; simpl; [discriminate|].
      destruct (Ascii.eqb_spec d NUL) as [->|Hd]; [discriminate|].
      intros [= -> E]. rewrite Ascii.eqb_refl. now apply IH.
Qed.

Lemma strcmp_zero_iff a b : strcmp a b = 0 <-> c_str a = c_str b.
Proof. split; [apply strcmp_zero|apply strcmp_same]. Qed.

Lemma get_command_type_SET_inv command :
  get_command_type command = CMD_SET -> c_str command = lit "SET".
Proof.
  unfold get_command_type.
  destruct (Z.eqb_spec (strcmp command (lit "SET")) 0) as [E|_].
  { intros _. now apply strcmp_zero in E. }
  destruct (Z.eqb (strcmp command (lit "GET")) 0); [discriminate|].
  destruct (Z.eqb (strcmp command (lit "DEL")) 0); discriminate.
Qed.

Lemma get_command_type_DEL_inv command :
  get_command_type command = CMD_DEL -> c_str command = lit "DEL".
Proof.
  unfold get_command_type.
  destruct (Z.eqb (strcmp command (lit "SET")) 0); [discriminate|].
  destruct (Z.eqb (strcmp command (lit "GET")) 0); [discriminate|].
  destruct (Z.eqb_spec (strcmp command (lit "DEL")) 0) as [E|_]; [|discriminate].
  intros _. now apply strcmp_zero in E.
Qed.

(** X1: [get_command_type] answers by exact, case-sensitive comparison of
    the whole command with SET, GET and DEL, in this order, and answers
    UNKNOWN for every other string. *)
Theorem command_type_exact command :
  get_command_type command
  = if decide (c_str command = lit "SET") then CMD_SET
    else if decide (c_str command = lit "GET") then CMD_GET
    else if decide (c_str command = lit "DEL") then CMD_DEL
    else CMD_UNKNOWN.
Proof.
  unfold get_command_type.
  destruct (decide (c_str command = lit "SET")) as [E|E].
  { now rewrite (strcmp_same command (lit "SET") E). }
  destruct (Z.eqb_spec (strcmp command (lit "SET")) 0) as [E'|_].
  { now apply strcmp_zero in E'. }
  destruct (decide (c_str command = lit "GET")) as [G|G].
  { now rewrite (strcmp_same command (lit "GET") G). }
  destruct (Z.eqb_spec (strcmp command (lit "GET")) 0) as [G'|_].
  { now apply strcmp_zero in G'. }
  destruct (decide (c_str command = lit "DEL")) as [D|D].
  { now rewrite (strcmp_same command (lit "DEL") D). }
  destruct (Z.eqb_spec (strcmp command (lit "DEL")) 0) as [D'|_].
  { now apply strcmp_zero in D'. }
  reflexivity.
Qed.

Example lower_case_is_unknown : get_command_type (lit "set") = CMD_UNKNOWN.
Proof. reflexivity. Qed.

Example longer_name_is_unknown : get_command_type (lit "SETX") = CMD_UNKNOWN.
Proof. reflexivity. Qed.

(** ** The three arrays of the parser *)

Lemma token_length w t : token w t -> (length t <= w)%nat.
Proof. now intros (_ & _ & H). Qed.

Lemma token_chars w t : token w t -> forallb key_char t = true.
Proof. now intros (_ & H & _). Qed.

(** X2: whatever the buffer holds, [sscanf] returns EOF, 1, 2 or 3, never
    0; it assigns that many strings; the command, the key and the value
    fit their arrays of 16, 256 and 768 bytes with room for the terminator;
    command and key hold no white space and no NUL, the value no newline
    and no NUL. *)
Theorem parsed_tokens_fit_arrays buffer :
  (fst (sscanf buffer request_format) = EOF
   \/ fst (sscanf buffer request_format) = 1
   \/ fst (sscanf buffer request_format) = 2
   \/ fst (sscanf buffer request_format) = 3)
  /\ Z.of_nat (length (snd (sscanf buffer request_format)))
     = Z.max 0 (fst (sscanf buffer request_format))
  /\ (length (nth 0 (snd (sscanf buffer request_format)) []) < MAX_COMMAND_LEN)%nat
  /\ (length (nth 1 (snd (sscanf buffer request_format)) []) < MAX_KEY_LEN)%nat
  /\ (length (nth 2 (snd (sscanf buffer request_format)) []) < MAX_VALUE_LEN)%nat
  /\ forallb key_char (nth 0 (snd (sscanf buffer request_format)) []) = true
  /\ forallb key_char (nth 1 (snd (sscanf buffer request_format)) []) = true
  /\ forallb value_char (nth 2 (snd (sscanf buffer request_format)) []) = true.
Proof.
  pose proof (sscanf_parsed buffer) as H.
  destruct (sscanf buffer request_format) as [n args]. cbn [fst snd] in *.
  unfold MAX_COMMAND_LEN, MAX_KEY_LEN, MAX_VALUE_LEN.
  destruct H as [|c Hc|c k Hc Hk|c k v Hc Hk (Hv1 & Hv2 & Hv3 & Hv4)];
    cbn [nth length forallb];
    repeat match goal with
           | H : token _ _ |- _ =>
               pose proof (token_length _ _ H); pose proof (token_chars _ _ H);
               clear H
           end;
    repeat split; auto; try lia.
Qed.

(** ** White space before the command *)

Lemma sscanf_leading_space ws buffer :
  forallb isspace ws = true ->
  sscanf (ws ++ buffer) request_format = sscanf buffer request_format.
Proof.
  intros Hws. unfold sscanf, request_format.
  rewrite c_str_app by exact (forallb_impl _ _ _ isspace_not_nul Hws).
  cbn [scan_directives]. now rewrite skip_space_all.
Qed.

(** X3: white space before the command changes nothing: a request that
    fits the buffer is handled as the same request without it. *)
Theorem leading_space_ignored flt st ws line :
  forallb isspace ws = true ->
  line <> [] ->
  fits_buffer (ws ++ line) = true ->
  handle_client flt st (RecvData (ws ++ line)) = handle_client flt st (RecvData line).
Proof.
  intros Hws Hne Hfit.
  assert (Hfit' : fits_buffer line = true).
  { unfold fits_buffer in *. apply Nat.leb_le in Hfit. apply Nat.leb_le.
    rewrite length_app in Hfit. lia. }
  assert (Hne' : ws ++ line <> []).
  { intros E. apply app_eq_nil in E as [_ E]. contradiction. }
  destruct (sscanf line request_format) as [n args] eqn:E.
  rewrite (handle_client_line flt st (ws ++ line) n args Hne' Hfit).
  2:{ now rewrite sscanf_leading_space. }
  now rewrite (handle_client_line flt st line n args Hne Hfit' E).
Qed.

Lemma leading_space_ignored_witness :
  handle_client no_faults (cwd_fs []) (RecvData (lit "  " ++ lit "SET foo bar"))
  = handle_client no_faults (cwd_fs []) (RecvData (lit "SET foo bar")).
Proof. apply leading_space_ignored; [reflexivity|discriminate|reflexivity]. Defined.

(** ** What a request can do to the store *)




(** X5: only SET and DEL write: a request whose command is neither leaves
    the store exactly as it was, whatever the rest of the request. *)
Theorem only_set_and_del_write flt st ev r :
  handle_client flt st ev = Returned r ->
  command_of ev <> lit "SET" ->
  command_of ev <> lit "DEL" ->
  store_after r = st.
Proof.
  intros H HS HD.
  destruct (handle_client_cases _ _ _ _ H) as [->|(v & Hc & _ & _ & ->)];
    [reflexivity|].
  unfold parse_message.
  destruct (get_command_type (command_of ev)) eqn:E.
  - apply get_command_type_SET_inv in E.
    rewrite (token_c_str _ _ Hc) in E. contradiction.
  - destruct (open_read flt st (key_of ev)) as [fd|]; [|reflexivity].
    now destruct (file_read flt st fd (MAX_VALUE_LEN - 1)).
  - apply get_command_type_DEL_inv in E.
    rewrite (token_c_str _ _ Hc) in E. contradiction.
  - reflexivity.
Qed.

Lemma only_set_and_del_write_witness :
  store_after (mk_served (MSG_OK ++ lit "x" ++ [LF]) (cwd_fs [(lit "bar", lit "x")])
                         [FsOpenRead (lit "bar"); FsRead (lit "bar") 767;
                          FsClose (lit "bar")])
  = cwd_fs [(lit "bar", lit "x")].
Proof.
  apply (only_set_and_del_write no_faults (cwd_fs [(lit "bar", lit "x")])
           (RecvData (lit "GET bar" ++ [LF]))).
  - reflexivity.
  - discriminate.
  - discriminate.
Defined.

(** ** Records the server can return whole *)

Lemma bounded_value_firstn n v : bounded_value v = true -> bounded_value (firstn n v) = true.
Proof.
  unfold bounded_value. change (MAX_VALUE_LEN - 1)%nat with 767%nat.
  intros H. apply andb_prop in H as [Hc Hl].
  apply Nat.leb_le in Hl. apply andb_true_intro. split.
  - rewrite <- (firstn_skipn n v), forallb_app in Hc. now apply andb_prop in Hc.
  - apply Nat.leb_le. rewrite length_firstn. lia.
Qed.

Lemma captured_bounded v : captured v -> bounded_value v = true.
Proof.
  intros (_ & Hc & Hl & _). unfold bounded_value. rewrite Hc.
  now apply Nat.leb_le.
Qed.

Lemma store_bounded_cwd_fs_empty : store_bounded (cwd_fs []).
Proof.
  intros i content. unfold cwd_fs, add_files, bare_dir. cbn [inodes].
  intros H.
  repeat (apply lookup_insert_Some in H as [[_ H]|[_ H]]; [discriminate|]).
  apply lookup_singleton_Some in H as [_ H]. discriminate.
Qed.

Lemma handle_client_bounded flt st ev r :
  store_bounded st -> handle_client flt st ev = Returned r ->
  store_bounded (store_after r).
Proof.
  intros Hst H.
  destruct (handle_client_cases _ _ _ _ H) as [->|(v & _ & _ & Hv & ->)];
    [exact Hst|].
  intros i c Hi.
  destruct (parse_message_inodes _ _ _ _ _ _ _ Hi) as [Hold|[-> | ->]].
  - exact (Hst i c Hold).
  - reflexivity.
  - apply bounded_value_firstn.
    destruct Hv as [->|Hv]; [reflexivity|now apply captured_bounded].
Qed.

Lemma accept_loop_bounded conns : forall st,
  store_bounded st -> store_bounded (files (accept_loop st conns)).
Proof.
  induction conns as [|[|flt ev] conns IH]; intros st Hst; cbn [accept_loop].
  - exact Hst.
  - now apply IH.
  - destruct (handle_client flt st ev) as [status|r] eqn:E; cbn [files]; [exact Hst|].
    apply IH. exact (handle_client_bounded _ _ _ _ Hst E).
Qed.

(** X6: the server keeps its records within what it can return: if every
    regular file has at most 767 bytes, no newline and no NUL, this is
    still so after any number of connections, whatever they send and
    whichever file calls fail. *)
Theorem records_stay_bounded st conns :
  store_bounded st -> store_bounded (files (accept_loop st conns)).
Proof.
  revert st. induction conns as [|[|flt ev] conns IH]; intros st Hst;
    cbn [accept_loop].
  - exact Hst.
  - now apply IH.
  - destruct (handle_client flt st ev) as [status|r] eqn:E; cbn [files].
    + exact Hst.
    + apply IH. intros i c Hi.
      destruct (handle_client_cases _ _ _ _ E) as [->|(v & _ & _ & Hv & ->)].
      * exact (Hst i c Hi).
      * destruct (parse_message_inodes _ _ _ _ _ _ _ Hi) as [Hold|[-> | ->]].
        -- exact (Hst i c Hold).
        -- reflexivity.
        -- apply bounded_value_firstn.
           destruct Hv as [->|Hv]; [reflexivity|now apply captured_bounded].
Qed.

Lemma records_stay_bounded_witness :
  store_bounded (files (accept_loop (cwd_fs [])
                          [request "SET foo hello world"; request "DEL bar";
                           request "SET bar"; AcceptError; request "FOO"])).
Proof. apply records_stay_bounded. exact store_bounded_cwd_fs_empty. Defined.

(** ** GET on any key *)

(** X7: [GET K] never changes the store.  It is answered [NOTFOUND\n] when
    the open fails or K leads to nothing, [ERROR\n] when K leads to a
    directory or the read fails, and otherwise [OK\n], then the first 767
    bytes of the file (or of what a device yields) cut at their first NUL
    byte, then a newline. *)
Theorem get_line_behaviour flt st K nl :
  valid_key K = true ->
  handle_client flt st (RecvData (GET_line K nl))
  = Returned
      (if open_fails flt then mk_served MSG_NOTFOUND st [FsOpenRead K]
       else match reached st K with
            | Some (Regular content) =>
                if read_fails flt
                then mk_served MSG_ERROR st [FsOpenRead K; FsRead K 767; FsClose K]
                else mk_served (MSG_OK ++ c_str (firstn 767 content) ++ [LF]) st
                               [FsOpenRead K; FsRead K 767; FsClose K]
            | Some (Special yield) =>
                if read_fails flt
                then mk_served MSG_ERROR st [FsOpenRead K; FsRead K 767; FsClose K]
                else mk_served (MSG_OK ++ c_str (firstn 767 yield) ++ [LF]) st
                               [FsOpenRead K; FsRead K 767; FsClose K]
            | Some Directory =>
                mk_served MSG_ERROR st [FsOpenRead K; FsRead K 767; FsClose K]
            | _ => mk_served MSG_NOTFOUND st [FsOpenRead K]
            end).
Proof.
  intros HK. rewrite handle_GET_line by assumption.
  now rewrite parse_message_GET by now apply valid_key_no_nul.
Qed.

Lemma get_line_behaviour_witness :
  handle_client no_faults (cwd_fs [(lit "k", lit "ab" ++ [NUL] ++ lit "cd")])
                (RecvData (GET_line (lit "k") true))
  = Returned
      (if open_fails no_faults
       then mk_served MSG_NOTFOUND (cwd_fs [(lit "k", lit "ab" ++ [NUL] ++ lit "cd")])
                      [FsOpenRead (lit "k")]
       else match reached (cwd_fs [(lit "k", lit "ab" ++ [NUL] ++ lit "cd")]) (lit "k") with
            | Some (Regular content) =>
                if read_fails no_faults
                then mk_served MSG_ERROR (cwd_fs [(lit "k", lit "ab" ++ [NUL] ++ lit "cd")])
                       [FsOpenRead (lit "k"); FsRead (lit "k") 767; FsClose (lit "k")]
                else mk_served (MSG_OK ++ c_str (firstn 767 content) ++ [LF])
                       (cwd_fs [(lit "k", lit "ab" ++ [NUL] ++ lit "cd")])
                       [FsOpenRead (lit "k"); FsRead (lit "k") 767; FsClose (lit "k")]
            | Some (Special yield) =>
                if read_fails no_faults
                then mk_served MSG_ERROR (cwd_fs [(lit "k", lit "ab" ++ [NUL] ++ lit "cd")])
                       [FsOpenRead (lit "k"); FsRead (lit "k") 767; FsClose (lit "k")]
                else mk_served (MSG_OK ++ c_str (firstn 767 yield) ++ [LF])
                       (cwd_fs [(lit "k", lit "ab" ++ [NUL] ++ lit "cd")])
                       [FsOpenRead (lit "k"); FsRead (lit "k") 767; FsClose (lit "k")]
            | Some Directory =>
                mk_served MSG_ERROR (cwd_fs [(lit "k", lit "ab" ++ [NUL] ++ lit "cd")])
                  [FsOpenRead (lit "k"); FsRead (lit "k") 767; FsClose (lit "k")]
            | _ => mk_served MSG_NOTFOUND (cwd_fs [(lit "k", lit "ab" ++ [NUL] ++ lit "cd")])
                     [FsOpenRead (lit "k")]
            end).
Proof. apply get_line_behaviour. reflexivity. Defined.

Example get_stops_at_nul :
  replies (accept_loop (cwd_fs [(lit "k", lit "ab" ++ [NUL] ++ lit "cd")])
                       [request "GET k"])
  = [MSG_OK ++ lit "ab" ++ [LF]].
Proof. reflexivity. Qed.

Lemma record_inode w K content :
  record w K = Some content -> exists i, inodes w !! i = Some (Regular content).
Proof.
  intros H. apply record_reached in H. unfold reached, node_at in H.
  destruct (open_entry w K) as [e|]; [|discriminate].
  destruct (entries w !! e) as [i|]; [|discriminate]. now exists i.
Qed.

(** X8: what the server has stored it returns whole: starting from regular
    files of at most 767 bytes without newline and NUL, after any run of
    connections a [GET K] whose file calls succeed, for a key that leads to
    a regular file, is answered [OK\n], the exact content of that file, and
    a newline. *)
Theorem get_returns_stored_record flt st conns K content nl :
  store_bounded st ->
  valid_key K = true ->
  record (files (accept_loop st conns)) K = Some content ->
  get_works flt = true ->
  handle_client flt (files (accept_loop st conns)) (RecvData (GET_line K nl))
  = Returned (mk_served (MSG_OK ++ content ++ [LF]) (files (accept_loop st conns))
                        [FsOpenRead K; FsRead K 767; FsClose K]).
Proof.
  intros Hst HK Hrec Hflt.
  destruct (record_inode _ _ _ Hrec) as [i Hi].
  pose proof (accept_loop_bounded conns st Hst i content Hi) as Hb.
  now apply handle_GET_ok.
Qed.

Lemma get_returns_stored_record_witness :
  handle_client no_faults
    (files (accept_loop (cwd_fs []) [request "SET foo a"; request "SET ./foo hello world"]))
    (RecvData (GET_line (lit "foo") true))
  = Returned (mk_served (MSG_OK ++ lit "hello world" ++ [LF])
                (files (accept_loop (cwd_fs [])
                          [request "SET foo a"; request "SET ./foo hello world"]))
                [FsOpenRead (lit "foo"); FsRead (lit "foo") 767; FsClose (lit "foo")]).
Proof.
  apply get_returns_stored_record;
    [exact store_bounded_cwd_fs_empty|reflexivity|reflexivity|reflexivity].
Defined.

(** ** Sequences of requests *)

(** X9: after a [DEL K] whose [remove] succeeds or finds nothing, the next
    [GET K] is answered [NOTFOUND\n]; the two replies are [OK\n] and
    [NOTFOUND\n] and the store is the old one without the entry that K
    names. *)
Theorem del_then_get_notfound flt1 flt2 st K nl1 nl2 :
  valid_key K = true ->
  remove_fails flt1 = false ->
  accept_loop st [Accepted flt1 (RecvData (DEL_line K nl1));
                  Accepted flt2 (RecvData (GET_line K nl2))]
  = mk_process [MSG_OK; MSG_NOTFOUND] (unlinked st K) None.
Proof.
  intros HK Hrm. pose proof (valid_key_no_nul K HK) as Hn. cbn [accept_loop].
  rewrite handle_DEL_line, parse_message_DEL by assumption.
  rewrite Hrm. cbn [store_after reply].
  rewrite handle_GET_line, parse_message_GET by assumption.
  rewrite reached_unlinked. now destruct (open_fails flt2).
Qed.

Lemma del_then_get_notfound_witness :
  accept_loop (cwd_fs [(lit "foo", lit "bar")])
              [Accepted no_faults (RecvData (DEL_line (lit "foo") true));
               Accepted no_faults (RecvData (GET_line (lit "foo") true))]
  = mk_process [MSG_OK; MSG_NOTFOUND]
               (unlinked (cwd_fs [(lit "foo", lit "bar")]) (lit "foo")) None.
Proof. apply del_then_get_notfound; reflexivity. Defined.





(** ** Two keys *)







(** Two keys that are two paths to one file are one record: the second
    SET replaces what the first stored. *)
Example set_other_path_replaces_record :
  lit "foo" <> lit "./foo"
  /\ replies (accept_loop (cwd_fs [])
                [Accepted no_faults (RecvData (SET_line (lit "foo") (lit "1") true));
                 Accepted no_faults (RecvData (SET_line (lit "./foo") (lit "2") true));
                 Accepted no_faults (RecvData (GET_line (lit "foo") true))])
     = [MSG_OK; MSG_OK; MSG_OK ++ lit "2" ++ [LF]].
Proof. split; [discriminate|reflexivity]. Qed.

(** ** Tokens longer than their fields *)




Example set_of_800_bytes_keeps_767 :
  replies (accept_loop (cwd_fs [])
             [Accepted no_faults (RecvData (SET_line (lit "k") (repeat "v"%char 800) true));
              Accepted no_faults (RecvData (GET_line (lit "k") true))])
  = [MSG_OK; MSG_OK ++ repeat "v"%char 767 ++ [LF]].
Proof. vm_compute. reflexivity. Qed.

Lemma firstn_valid_key tok :
  forallb key_char tok = true -> tok <> [] -> valid_key (firstn 255 tok) = true.
Proof.
  intros Htok Hne. unfold valid_key.
  change (MAX_KEY_LEN - 1)%nat with 255%nat.
  apply andb_true_intro. split; [apply andb_true_intro; split|].
  - rewrite <- (firstn_skipn 255 tok), forallb_app in Htok. now apply andb_prop in Htok.
  - destruct tok; [congruence|reflexivity].
  - apply Nat.leb_le. rewrite length_firstn. lia.
Qed.

(** X14: GET and DEL use the first 255 bytes of the key token and nothing
    else of the request: a key token of any length, followed by anything,
    is handled as the request with the first 255 bytes of the token as
    its key. *)
Theorem get_and_del_use_key_only flt st tok junk :
  forallb key_char tok = true ->
  tok <> [] ->
  stops key_char junk = true ->
  fits_buffer (lit "GET" ++ [sp] ++ tok ++ junk) = true ->
  handle_client flt st (RecvData (lit "GET" ++ [sp] ++ tok ++ junk))
  = handle_client flt st (RecvData (GET_line (firstn 255 tok) false))
  /\ handle_client flt st (RecvData (lit "DEL" ++ [sp] ++ tok ++ junk))
     = handle_client flt st (RecvData (DEL_line (firstn 255 tok) false)).
Proof.
  intros Htok Hne Hjunk Hfit.
  pose proof (firstn_valid_key tok Htok Hne) as HK.
  pose proof (valid_key_no_nul _ HK) as Hn.
  assert (HneG : lit "GET" ++ [sp] ++ tok ++ junk <> []) by discriminate.
  assert (HneD : lit "DEL" ++ [sp] ++ tok ++ junk <> []) by discriminate.
  split.
  - destruct (sscanf_command_key (lit "GET") tok junk)
      as (n & args & Hscan & Hn2 & Hc & Hk); try assumption;
      try reflexivity; try discriminate; [simpl; lia|].
    rewrite (handle_client_line flt st _ n args HneG Hfit Hscan).
    destruct (Z.leb_spec 2 n); [|lia].
    rewrite Hc, Hk, handle_GET_line by assumption.
    now rewrite !parse_message_GET by assumption.
  - destruct (sscanf_command_key (lit "DEL") tok junk)
      as (n & args & Hscan & Hn2 & Hc & Hk); try assumption;
      try reflexivity; try discriminate; [simpl; lia|].
    rewrite (handle_client_line flt st _ n args HneD Hfit Hscan).
    destruct (Z.leb_spec 2 n); [|lia].
    rewrite Hc, Hk, handle_DEL_line by assumption.
    now rewrite !parse_message_DEL by assumption.
Qed.

Lemma get_and_del_use_key_only_witness :
  handle_client no_faults (cwd_fs [(lit "foo", lit "bar")])
                (RecvData (lit "GET" ++ [sp] ++ lit "foo" ++ lit " and more" ++ [LF]))
  = handle_client no_faults (cwd_fs [(lit "foo", lit "bar")])
                  (RecvData (GET_line (firstn 255 (lit "foo")) false))
  /\ handle_client no_faults (cwd_fs [(lit "foo", lit "bar")])
                   (RecvData (lit "DEL" ++ [sp] ++ lit "foo" ++ lit " and more" ++ [LF]))
     = handle_client no_faults (cwd_fs [(lit "foo", lit "bar")])
                     (RecvData (DEL_line (firstn 255 (lit "foo")) false)).
Proof.
  apply get_and_del_use_key_only; try reflexivity.
  discriminate.
Defined.

(** ** The life of the process *)

Lemma handle_client_outcome flt st ev :
  (fst (sock_read ev (BUFFER_SIZE - 1)) <= 0
   /\ handle_client flt st ev = Exited EXIT_FAILURE)
  \/ (0 < fst (sock_read ev (BUFFER_SIZE - 1))
      /\ exists r, handle_client flt st ev = Returned r).
Proof.
  unfold handle_client.
  destruct (sock_read ev (BUFFER_SIZE - 1)) as [bytes_received buffer].
  cbn [fst]. destruct (Z.leb_spec bytes_received 0); [now left|right].
  split; [assumption|].
  destruct (sscanf buffer request_format) as [parsed_args args].
  destruct (Z.leb 2 parsed_args); eexists; reflexivity.
Qed.

Lemma process_eta p : mk_process (replies p) (files p) (exit_status p) = p.
Proof. now destruct p. Qed.

(** X15: serving a run of connections is serving its first part and then,
    unless the process has exited, the rest from the store reached, the
    replies following one another. *)
Theorem accept_loop_composes st conns1 conns2 :
  accept_loop st (conns1 ++ conns2)
  = match exit_status (accept_loop st conns1) with
    | Some _ => accept_loop st conns1
    | None =>
        mk_process
          (replies (accept_loop st conns1)
           ++ replies (accept_loop (files (accept_loop st conns1)) conns2))
          (files (accept_loop (files (accept_loop st conns1)) conns2))
          (exit_status (accept_loop (files (accept_loop st conns1)) conns2))
    end.
Proof.
  revert st. induction conns1 as [|[|flt ev] conns1 IH]; intros st.
  - cbn [accept_loop app exit_status replies files]. now rewrite process_eta.
  - cbn [accept_loop app]. apply IH.
  - cbn [accept_loop app].
    destruct (handle_client flt st ev) as [status|r]; [reflexivity|].
    cbn [exit_status replies files]. rewrite IH.
    destruct (exit_status (accept_loop (store_after r) conns1)) eqn:E;
      cbn [replies files exit_status]; rewrite ?E; reflexivity.
Qed.

(** X16: one connection whose read returns nothing ends the server: the
    process exits with [EXIT_FAILURE], the connections after it are never
    served, and replies and store are those reached before it. *)
Theorem failed_read_ends_server st pre flt ev post :
  fst (sock_read ev (BUFFER_SIZE - 1)) <= 0 ->
  accept_loop st (pre ++ Accepted flt ev :: post)
  = mk_process (replies (accept_loop st pre)) (files (accept_loop st pre))
               (Some EXIT_FAILURE).
Proof.
  intros Hread. revert st.
  induction pre as [|[|flt' ev'] pre IH]; intros st; cbn [accept_loop app].
  - destruct (handle_client_outcome flt st ev) as [[_ ->]|[H _]]; [reflexivity|lia].
  - apply IH.
  - destruct (handle_client_outcome flt' st ev') as [[_ ->]|[_ [r ->]]]; [reflexivity|].
    cbn [replies files]. now rewrite IH.
Qed.

Lemma failed_read_ends_server_witness :
  accept_loop (cwd_fs []) ([request "SET foo bar"]
                 ++ Accepted no_faults (RecvData []) :: [request "GET foo"])
  = mk_process (replies (accept_loop (cwd_fs []) [request "SET foo bar"]))
               (files (accept_loop (cwd_fs []) [request "SET foo bar"]))
               (Some EXIT_FAILURE).
Proof.
  apply (failed_read_ends_server (cwd_fs []) [request "SET foo bar"] no_faults (RecvData [])
           [request "GET foo"]).
  vm_compute. discriminate.
Defined.


(** X18: as long as every read returns at least one byte, every accepted
    connection gets exactly one reply, and a failed accept gets none. *)
Theorem one_reply_per_connection st conns :
  forallb delivers conns = true ->
  length (replies (accept_loop st conns)) = length (List.filter is_accepted conns).
Proof.
  revert st. induction conns as [|[|flt ev] conns IH]; intros st;
    cbn [accept_loop forallb delivers andb List.filter is_accepted].
  - reflexivity.
  - apply IH.
  - intros H. apply andb_prop in H as [Hd Hrest]. apply Z.ltb_lt in Hd.
    destruct (handle_client_outcome flt st ev) as [[H _]|[_ [r ->]]]; [lia|].
    cbn [replies length]. f_equal. now apply IH.
Qed.

Lemma one_reply_per_connection_witness :
  length (replies (accept_loop (cwd_fs []) [request "SET foo bar"; AcceptError; request "nonsense";
                                  request "GET foo"]))
  = length (List.filter is_accepted [request "SET foo bar"; AcceptError;
                                     request "nonsense"; request "GET foo"]).
Proof. apply one_reply_per_connection. reflexivity. Defined.

(** X19: every reply is one of the four fixed messages or [OK\n], a
    content of at most 767 bytes without NUL, and a newline; no reply is
    empty or longer than 771 bytes. *)
Theorem replies_are_status_lines flt st ev r :
  handle_client flt st ev = Returned r ->
  (reply r = MSG_OK \/ reply r = MSG_ERROR \/ reply r = MSG_NOTFOUND
   \/ reply r = MSG_MALFORMED
   \/ exists content,
       reply r = MSG_OK ++ content ++ [LF]
       /\ (length content <= 767)%nat /\ forallb not_nul content = true)
  /\ (0 < length (reply r) <= 771)%nat.
Proof.
  intros H.
  assert (Hcases : reply r = MSG_OK \/ reply r = MSG_ERROR \/ reply r = MSG_NOTFOUND
                   \/ reply r = MSG_MALFORMED
                   \/ exists content,
                       reply r = MSG_OK ++ content ++ [LF]
                       /\ (length content <= 767)%nat
                       /\ forallb not_nul content = true).
  { destruct (handle_client_cases _ _ _ _ H) as [->|(v & _ & _ & _ & ->)]; [auto|].
    unfold parse_message. destruct (get_command_type (command_of ev)).
    - destruct (open_trunc flt st (key_of ev)) as [[st1 fd]|]; [|auto].
      destruct (file_write flt st1 fd v (strlen v)); auto.
    - destruct (open_read flt st (key_of ev)) as [fd|]; [|auto].
      destruct (file_read flt st fd (MAX_VALUE_LEN - 1)) as [file_content|] eqn:Hread;
        [|auto].
      assert (Hlen : (length file_content <= 767)%nat).
      { unfold file_read in Hread. destruct (read_fails flt); [discriminate|].
        change (MAX_VALUE_LEN - 1)%nat with 767%nat in Hread.
        destruct (inodes st !! fd) as [[c| |y|t]|]; try discriminate;
          injection Hread as <-; rewrite length_firstn; lia. }
      assert (E : file_content = firstn (MAX_VALUE_LEN - 1) file_content).
      { symmetry. apply firstn_all2. exact Hlen. }
      cbv zeta. cbn [reply]. rewrite E, get_response_bytes, <- E.
      right; right; right; right.
      exists (c_str file_content).
      split; [reflexivity|]. split; [|apply c_str_has_no_nul].
      pose proof (c_str_shorter file_content). lia.
    - destruct (remove flt st (key_of ev)) as [rc st1].
      destruct (Z.eqb rc 0); auto.
    - auto. }
  split; [exact Hcases|].
  destruct Hcases as [->|[->|[->|[->|(content & -> & Hl & _)]]]];
    try (vm_compute; lia).
  rewrite !length_app. change (length MSG_OK) with 3%nat.
  change (length [LF]) with 1%nat. lia.
Qed.

Lemma replies_are_status_lines_witness :
  (reply (mk_served MSG_NOTFOUND (cwd_fs []) [FsOpenRead (lit "foo")]) = MSG_OK
   \/ reply (mk_served MSG_NOTFOUND (cwd_fs []) [FsOpenRead (lit "foo")]) = MSG_ERROR
   \/ reply (mk_served MSG_NOTFOUND (cwd_fs []) [FsOpenRead (lit "foo")]) = MSG_NOTFOUND
   \/ reply (mk_served MSG_NOTFOUND (cwd_fs []) [FsOpenRead (lit "foo")]) = MSG_MALFORMED
   \/ exists content,
       reply (mk_served MSG_NOTFOUND (cwd_fs []) [FsOpenRead (lit "foo")])
       = MSG_OK ++ content ++ [LF]
       /\ (length content <= 767)%nat /\ forallb not_nul content = true)
  /\ (0 < length (reply (mk_served MSG_NOTFOUND (cwd_fs []) [FsOpenRead (lit "foo")])) <= 771)%nat.
Proof.
  apply (replies_are_status_lines no_faults (cwd_fs []) (RecvData (lit "GET foo" ++ [LF]))).
  reflexivity.
Defined.

(** ** Start-up and accept *)

(** X20: [main] reaches its accept loop exactly when [socket], [inet_pton],
    [bind] and [listen] all succeed; when one of them fails it exits with
    [EXIT_FAILURE] before accepting anyone, without a reply and without
    touching the store. *)
Theorem main_serves_iff_startup_ok env st arrivals :
  run_main env st arrivals
  = if startup_ok env then serve_loop st arrivals
    else mk_process [] st (Some EXIT_FAILURE).
Proof.
  unfold run_main, startup_ok, set_tcp_server_socket.
  destruct (Z.ltb_spec (socket_rc env) 0) as [Hs|Hs].
  { cbn [fst]. destruct (Z.leb_spec 0 (socket_rc env)); [lia|reflexivity]. }
  destruct (Z.leb_spec 0 (socket_rc env)) as [_|]; [|lia].
  destruct (Z.leb_spec (inet_pton_rc env) 0) as [Hi|Hi].
  { cbn [fst]. destruct (Z.ltb_spec 0 (inet_pton_rc env)); [lia|reflexivity]. }
  destruct (Z.ltb_spec 0 (inet_pton_rc env)) as [_|]; [|lia].
  destruct (Z.eqb (bind_rc env) (-1)); [reflexivity|].
  destruct (Z.eqb (listen_rc env) (-1)); [reflexivity|].
  cbn [fst andb negb].
  destruct (Z.ltb_spec (socket_rc env) 0); [lia|reflexivity].
Qed.

Example startup_codes :
  map (fun env => fst (set_tcp_server_socket env))
      [mk_startup (-1) 1 0 0; mk_startup 3 0 0 0; mk_startup 3 1 (-1) 0;
       mk_startup 3 1 0 (-1); mk_startup 3 1 0 0]
  = [SOCKET_ERROR; IP_SERVER_ERROR; BIND_ERROR; LISTEN_ERROR; 3].
Proof. reflexivity. Qed.

Lemma accept_client_socket_sign rc :
  Z.ltb (accept_client_socket rc) 0 = Z.ltb rc 0.
Proof.
  unfold accept_client_socket, ACCEPT_ERROR.
  destruct (Z.eqb_spec rc (-1)) as [->|_]; reflexivity.
Qed.

(** The loop of [main] is the accept loop over the arrivals, a failed
    accept being an [AcceptError]. *)
Lemma serve_loop_accept_loop arrivals : forall st,
  serve_loop st arrivals = accept_loop st (map connection_of arrivals).
Proof.
  induction arrivals as [|a arrivals IH]; intros st; [reflexivity|].
  cbn [serve_loop map accept_loop]. unfold connection_of at 1.
  rewrite accept_client_socket_sign.
  destruct (Z.ltb (accept_rc a) 0); [apply IH|].
  destruct (handle_client (arrival_faults a) st (arrival_recv a)); [reflexivity|].
  now rewrite IH.
Qed.

(** X21: a failed accept does not end the server and leaves no trace: the
    run is the run over the arrivals whose accept succeeded. *)
Theorem failed_accepts_are_skipped arrivals : forall st,
  serve_loop st arrivals = serve_loop st (List.filter accept_ok arrivals).
Proof.
  induction arrivals as [|a arrivals IH]; intros st; [reflexivity|].
  cbn [serve_loop List.filter]. unfold accept_ok at 1.
  rewrite accept_client_socket_sign.
  destruct (Z.ltb_spec (accept_rc a) 0) as [Hlt|Hge].
  - destruct (Z.leb_spec 0 (accept_rc a)); [lia|]. apply IH.
  - destruct (Z.leb_spec 0 (accept_rc a)); [|lia].
    cbn [serve_loop]. rewrite accept_client_socket_sign.
    destruct (Z.ltb_spec (accept_rc a) 0); [lia|].
    destruct (handle_client (arrival_faults a) st (arrival_recv a)); [reflexivity|].
    now rewrite IH.
Qed.

Example failed_accept_between_requests :
  serve_loop (cwd_fs []) [mk_arrival 4 no_faults (RecvData (lit "SET foo bar" ++ [LF]));
                mk_arrival (-1) no_faults RecvError;
                mk_arrival 4 no_faults (RecvData (lit "GET foo" ++ [LF]))]
  = mk_process [MSG_OK; MSG_OK ++ lit "bar" ++ [LF]]
               (put_record (cwd_fs []) (lit "foo") (lit "bar")) None.
Proof. reflexivity. Qed.
